(** * The abstract hardware model of the GPU simulator
  (src/abstract_hardware_model.h)

  A shallow embedding of the classes of the header: [dim3] and
  [kernel_info_t] (the kernel work enumerator), [memory_space_t],
  [dram_callback_t], [inst_t] and [warp_inst_t].

  Conventions of the embedding.
  - [unsigned] is a 32-bit integer, kept as a [Z] in [0, 2^32); every
    arithmetic operation on it is followed by [wrap32].  [size_t] and
    [unsigned long long] are 64-bit and only ever hold values that are
    stored or widened, never computed.
  - Pointers (function pointers, [inst_t*], [ptx_thread_info*]) are
    addresses, kept as [Z], with [NULL] = 0.
  - A failed [assert], an access outside a [std::vector] or a
    [std::bitset] and a call through a null function pointer have no
    result: such operations return [option]. *)

From Stdlib Require Import ZArith Lia Bool Btauto List.
From Stdlib Require Strings.Byte.
From Stdlib Require Import Ascii.
From stdpp Require Import base tactics option numbers list.
Import ListNotations.

Local Open Scope Z_scope.

(** ** Machine integers *)

Definition UINT_BITS : Z := 32.
Definition UINT_MODULUS : Z := 2 ^ UINT_BITS.

(** The value an [unsigned] holds after an arithmetic result [x]. *)
Definition wrap32 (x : Z) : Z := x mod UINT_MODULUS.

Definition is_unsigned (x : Z) : Prop := 0 <= x < UINT_MODULUS.

Definition NULL : Z := 0.

(** ** [dim3] and [kernel_info_t] *)

Module Kernel.

(** [struct dim3 { unsigned int x, y, z; }] *)
Record dim3 : Type := Dim3 { x : Z; y : Z; z : Z }.

Record kernel_info_t : Type := KernelInfo {
  m_valid : bool;
  m_kernel_entry : Z;      (* class function_info * *)
  m_grid_dim : dim3;
  m_block_dim : dim3;
  m_next_cta : dim3;
  m_next_tid : dim3
}.

(** [kernel_info_t( dim3 gridDim, dim3 blockDim, function_info *entry )] *)
Definition bind (gridDim blockDim : dim3) (entry : Z) : kernel_info_t :=
  let zero := Dim3 0 0 0 in
  {| m_valid := true;
     m_kernel_entry := entry;
     m_grid_dim := gridDim;
     m_block_dim := blockDim;
     m_next_cta := zero;
     m_next_tid := zero |}.

(** [num_blocks]: the product is taken on [unsigned] operands, left to
    right, and the [unsigned] result is then widened to [size_t]. *)
Definition num_blocks (k : kernel_info_t) : Z :=
  let g := m_grid_dim k in
  wrap32 (wrap32 (x g * y g) * z g).

Definition threads_per_cta (k : kernel_info_t) : Z :=
  let b := m_block_dim k in
  wrap32 (wrap32 (x b * y b) * z b).

Definition get_grid_dim (k : kernel_info_t) : dim3 := m_grid_dim k.
Definition get_cta_dim (k : kernel_info_t) : dim3 := m_block_dim k.
Definition get_next_cta_id (k : kernel_info_t) : dim3 := m_next_cta k.
Definition get_next_thread_id_3d (k : kernel_info_t) : dim3 := m_next_tid k.

Definition no_more_ctas_to_run (k : kernel_info_t) : bool :=
  (x (m_grid_dim k) <=? x (m_next_cta k))
  || (y (m_grid_dim k) <=? y (m_next_cta k))
  || (z (m_grid_dim k) <=? z (m_next_cta k)).

(** [m_next_tid.x + m_block_dim.x*m_next_tid.y
      + m_block_dim.x*m_block_dim.y*m_next_tid.z], all in [unsigned]. *)
Definition get_next_thread_id (k : kernel_info_t) : Z :=
  let t := m_next_tid k in
  let b := m_block_dim k in
  wrap32 (wrap32 (x t + wrap32 (x b * y t))
          + wrap32 (wrap32 (x b * y b) * z t)).

(** [m_next_tid.z < m_block_dim.z && m_next_tid.y < m_block_dim.y
      && m_next_tid.z < m_block_dim.x], as the source has it. *)
Definition more_threads_in_cta (k : kernel_info_t) : bool :=
  (z (m_next_tid k) <? z (m_block_dim k))
  && (y (m_next_tid k) <? y (m_block_dim k))
  && (z (m_next_tid k) <? x (m_block_dim k)).

(** Modelled from the spec: [increment_x_then_y_then_z] is declared in
    the header and defined in another file.  "Increment x; if x reaches
    its bound, reset x to 0 and increment y; if y reaches its bound,
    reset y to 0 and increment z; z is never reset." *)
Definition increment_x_then_y_then_z (i bound : dim3) : dim3 :=
  let x1 := wrap32 (x i + 1) in
  if x1 <? x bound then Dim3 x1 (y i) (z i)
  else
    let y1 := wrap32 (y i + 1) in
    if y1 <? y bound then Dim3 0 y1 (z i)
    else Dim3 0 0 (wrap32 (z i + 1)).

(** [increment_cta_id()] *)
Definition increment_cta_id (k : kernel_info_t) : kernel_info_t :=
  {| m_valid := m_valid k;
     m_kernel_entry := m_kernel_entry k;
     m_grid_dim := m_grid_dim k;
     m_block_dim := m_block_dim k;
     m_next_cta := increment_x_then_y_then_z (m_next_cta k) (m_grid_dim k);
     m_next_tid := Dim3 0 0 0 |}.

(** [increment_thread_id()] *)
Definition increment_thread_id (k : kernel_info_t) : kernel_info_t :=
  {| m_valid := m_valid k;
     m_kernel_entry := m_kernel_entry k;
     m_grid_dim := m_grid_dim k;
     m_block_dim := m_block_dim k;
     m_next_cta := m_next_cta k;
     m_next_tid := increment_x_then_y_then_z (m_next_tid k) (m_block_dim k) |}.

(** The flat index of the claim, as a mathematical integer. *)
Definition linear_index (k : kernel_info_t) : Z :=
  let t := m_next_tid k in
  let b := m_block_dim k in
  x t + x b * y t + x b * y b * z t.

(** Whether the next thread coordinate lies inside the block. *)
Definition tid_in_block (k : kernel_info_t) : Prop :=
  x (m_next_tid k) < x (m_block_dim k)
  /\ y (m_next_tid k) < y (m_block_dim k)
  /\ z (m_next_tid k) < z (m_block_dim k).

(** A state with the given block dimensions and next thread. *)
Definition at_thread (blockDim tid : dim3) : kernel_info_t :=
  {| m_valid := true;
     m_kernel_entry := NULL;
     m_grid_dim := Dim3 1 1 1;
     m_block_dim := blockDim;
     m_next_cta := Dim3 0 0 0;
     m_next_tid := tid |}.

End Kernel.

(** ** [memory_space_t] *)

Module MemorySpace.

(** [enum _memory_space_t], in the order of its enumerators. *)
Inductive _memory_space_t : Type :=
| undefined_space
| reg_space
| local_space
| shared_space
| param_space_unclassified
| param_space_kernel
| param_space_local
| const_space
| tex_space
| surf_space
| global_space
| generic_space
| instruction_space.

(** The integer value of an enumerator ([undefined_space=0], then
    counting up): what [<], [>] and [==] compare. *)
Definition enum_value (s : _memory_space_t) : Z :=
  match s with
  | undefined_space => 0
  | reg_space => 1
  | local_space => 2
  | shared_space => 3
  | param_space_unclassified => 4
  | param_space_kernel => 5
  | param_space_local => 6
  | const_space => 7
  | tex_space => 8
  | surf_space => 9
  | global_space => 10
  | generic_space => 11
  | instruction_space => 12
  end.

Record memory_space_t : Type := MemSpace {
  m_type : _memory_space_t;
  m_bank : Z                (* unsigned: n in ".const[n]" *)
}.

(** [memory_space_t()] *)
Definition default : memory_space_t :=
  {| m_type := undefined_space; m_bank := 0 |}.

(** [memory_space_t( const enum _memory_space_t &from )] *)
Definition of_type (from : _memory_space_t) : memory_space_t :=
  {| m_type := from; m_bank := 0 |}.

(** [operator==]: [(m_bank == x.m_bank) && (m_type == x.m_type)] *)
Definition eqb (a x : memory_space_t) : bool :=
  (m_bank a =? m_bank x) && (enum_value (m_type a) =? enum_value (m_type x)).

(** [operator!=] *)
Definition neqb (a x : memory_space_t) : bool := negb (eqb a x).

(** [operator<] *)
Definition ltb (a x : memory_space_t) : bool :=
  if enum_value (m_type a) <? enum_value (m_type x) then true
  else if enum_value (m_type x) <? enum_value (m_type a) then false
  else if m_bank a <? m_bank x then true
  else false.

Definition get_type (a : memory_space_t) : _memory_space_t := m_type a.
Definition get_bank (a : memory_space_t) : Z := m_bank a.
Definition set_bank (a : memory_space_t) (b : Z) : memory_space_t :=
  {| m_type := m_type a; m_bank := b |}.

End MemorySpace.

(** ** [dram_callback_t] and [inst_t] *)

Module Inst.

Inductive uarch_op_t : Type :=
| NO_OP
| ALU_OP
| SFU_OP
| ALU_SFU_OP
| LOAD_OP
| STORE_OP
| BRANCH_OP
| BARRIER_OP
| MEMORY_BARRIER_OP.

Inductive _memory_op_t : Type :=
| no_memory_op
| memory_load
| memory_store.

Definition MAX_REG_OPERANDS : nat := 8.

(** [sizeof(unsigned)], in bytes. *)
Definition sizeof_unsigned : nat := 4.

(** [dram_callback_t]: a function pointer and its two arguments. *)
Record dram_callback_t : Type := DramCallback {
  function : Z;
  instruction : Z;
  thread : Z
}.

(** [dram_callback_t()] *)
Definition no_callback : dram_callback_t :=
  {| function := NULL; instruction := NULL; thread := NULL |}.

(** [memset(s, c, n)] on the bytes of one array: the first [n] bytes
    become [c], the others stay. *)
Fixpoint memset (s : list Byte.byte) (c : Byte.byte) (n : nat) : list Byte.byte :=
  match n, s with
  | S n', _ :: s' => c :: memset s' c n'
  | _, _ => s
  end.

(** The value of an [unsigned] stored in four bytes (least significant
    first). *)
Fixpoint decode_unsigned (bs : list Byte.byte) : Z :=
  match bs with
  | [] => 0
  | b :: bs' => Z.of_N (Byte.to_N b) + 256 * decode_unsigned bs'
  end.

(** [a[i]] for an [unsigned a[]] kept as its bytes. *)
Definition load_unsigned (a : list Byte.byte) (i : nat) : option Z :=
  let bs := take sizeof_unsigned (drop (sizeof_unsigned * i)%nat a) in
  if decide (length bs = sizeof_unsigned) then Some (decode_unsigned bs) else None.

(** The fields of [inst_t]; [out] and [in] are kept as the 16 bytes of
    their four [unsigned] slots, since the constructor writes them with
    [memset]. *)
Record inst_t : Type := InstT {
  pc : Z;
  isize : Z;
  op : uarch_op_t;
  memory_op : _memory_op_t;
  out : list Byte.byte;
  in_ : list Byte.byte;
  is_vectorin : Z;
  is_vectorout : Z;
  pred : Z;
  ar1 : Z;
  ar2 : Z;
  arch_reg : list Z;
  cycles : Z;
  data_size : Z;
  space : MemorySpace.memory_space_t;
  m_decoded : bool
}.

(** [for( unsigned i=0; i < MAX_REG_OPERANDS; i++ ) arch_reg[i]=-1;] *)
Definition fill_arch_reg (regs : list Z) : list Z :=
  foldl (fun a i => <[i := -1]> a) regs (seq 0 MAX_REG_OPERANDS).

(** [inst_t()], run on storage holding [raw]: the fields the
    constructor does not assign keep what the storage held. *)
Definition construct (raw : inst_t) : inst_t :=
  {| m_decoded := false;
     pc := wrap32 (-1);
     op := NO_OP;
     out := memset (out raw) Byte.x00 sizeof_unsigned;
     in_ := memset (in_ raw) Byte.x00 sizeof_unsigned;
     is_vectorin := 0;
     is_vectorout := 0;
     space := MemorySpace.default;
     cycles := 0;
     arch_reg := fill_arch_reg (arch_reg raw);
     isize := 0;
     memory_op := memory_op raw;
     pred := pred raw;
     ar1 := ar1 raw;
     ar2 := ar2 raw;
     data_size := data_size raw |}.

Definition valid (i : inst_t) : bool := m_decoded i.

(** Storage of the right shape for an [inst_t]. *)
Definition storage_ok (raw : inst_t) : Prop :=
  length (out raw) = (4 * sizeof_unsigned)%nat
  /\ length (in_ raw) = (4 * sizeof_unsigned)%nat
  /\ length (arch_reg raw) = MAX_REG_OPERANDS.

(** Storage in which every byte is [b] (and every other field holds
    [v]). *)
Definition filled_storage (b : Byte.byte) (v : Z) : inst_t :=
  {| m_decoded := true;
     pc := v; op := ALU_OP; memory_op := no_memory_op;
     out := replicate (4 * sizeof_unsigned) b;
     in_ := replicate (4 * sizeof_unsigned) b;
     is_vectorin := v; is_vectorout := v;
     space := MemorySpace.default;
     cycles := v;
     arch_reg := replicate MAX_REG_OPERANDS v;
     isize := v; pred := v; ar1 := v; ar2 := v; data_size := v |}.

(** What a [print_insn] writes to [fp], one entry per [fprintf]:
    [fprintf(fp," [inst @ pc=0x%04x] ", pc )] and
    [fprintf(fp, "%c", c)]. *)
Inductive output : Type :=
| Header (pc : Z)
| Char (c : ascii).

(** [inst_t::print_insn( fp )] *)
Definition print_insn (i : inst_t) : list output := [Header (pc i)].

End Inst.

(** ** [warp_inst_t] *)

Module Warp.

Import Inst.

Definition MAX_WARP_SIZE : Z := 32.

(** *** [std::bitset<MAX_WARP_SIZE>], kept as the integer of its bits *)

Definition bitset : Type := Z.

(** [bitset()]: no bit set. *)
Definition bitset_empty : bitset := 0.

Definition bitset_in_range (pos : Z) : bool := (0 <=? pos) && (pos <? MAX_WARP_SIZE).

(** [b.set(pos)] (throws [out_of_range] outside the bitset). *)
Definition bitset_set (b : bitset) (pos : Z) : option bitset :=
  if bitset_in_range pos then Some (Z.lor b (Z.shiftl 1 pos)) else None.

(** [b.test(pos)] (throws [out_of_range] outside the bitset). *)
Definition bitset_test (b : bitset) (pos : Z) : option bool :=
  if bitset_in_range pos then Some (Z.testbit b pos) else None.

(** [b[pos]] (undefined outside the bitset). *)
Definition bitset_index (b : bitset) (pos : Z) : option bool :=
  if bitset_in_range pos then Some (Z.testbit b pos) else None.

(** *** [std::vector<per_thread_info>] *)

Record per_thread_info : Type := PerThreadInfo {
  callback : dram_callback_t;
  memreqaddr : Z;            (* new_addr_type: effective address *)
  cache_miss : bool
}.

(** [per_thread_info()] *)
Definition per_thread_default : per_thread_info :=
  {| callback := no_callback; memreqaddr := 0; cache_miss := false |}.

(** [v.resize(n)]: cut to [n] entries, or filled up to [n] with
    default-constructed ones. *)
Definition vector_resize (v : list per_thread_info) (n : nat) : list per_thread_info :=
  take n v ++ replicate (n - length v)%nat per_thread_default.

(** [v[n]] for an unsigned [n] (undefined outside the vector). *)
Definition vector_at (v : list per_thread_info) (n : Z) : option per_thread_info :=
  if 0 <=? n then v !! Z.to_nat n else None.

(** [v[n] = t] *)
Definition vector_store (v : list per_thread_info) (n : Z) (t : per_thread_info)
  : option (list per_thread_info) :=
  match vector_at v n with
  | Some _ => Some (<[Z.to_nat n := t]> v)
  | None => None
  end.

(** *** The class *)

Record warp_inst_t : Type := WarpInst {
  base : inst_t;                       (* the inst_t subobject *)
  m_empty : bool;
  issue_cycle : Z;                     (* unsigned long long *)
  m_isatomic : bool;
  m_warp_id : Z;
  m_warp_size : Z;
  warp_active_mask : bitset;
  m_per_scalar_thread_valid : bool;
  m_per_scalar_thread : list per_thread_info
}.

(** [warp_inst_t( unsigned warp_size )], run on storage holding [raw]:
    [m_warp_id] and [issue_cycle] are not assigned and keep what the
    storage held; the bitset and the vector are default-constructed. *)
Definition construct (raw : warp_inst_t) (warp_size : Z) : option warp_inst_t :=
  if warp_size <=? MAX_WARP_SIZE then
    Some {| base := Inst.construct (base raw);
            m_warp_size := warp_size;
            m_empty := true;
            m_isatomic := false;
            m_per_scalar_thread_valid := false;
            issue_cycle := issue_cycle raw;
            m_warp_id := m_warp_id raw;
            warp_active_mask := bitset_empty;
            m_per_scalar_thread := [] |}
  else None.

(** A call made through a callback's function pointer:
    [cb.function(cb.instruction, cb.thread)]. *)
Record call : Type := Call {
  callee : Z;
  arg_instruction : Z;
  arg_thread : Z
}.

(** The loop of [do_atomic], from the iterator at lane [lane] to
    [end()]; [done] are the calls made so far, each with the lane whose
    entry made it.  The loop tests [cb.thread] only: at an entry with a
    thread and a null [cb.function] it calls through a null pointer, and
    the run has no result. *)
Fixpoint do_atomic_from (lane : nat) (v : list per_thread_info)
    (done : list (nat * call)) : option (list (nat * call)) :=
  match v with
  | [] => Some done
  | t :: v' =>
      let cb := callback t in
      if thread cb =? NULL then do_atomic_from (S lane) v' done
      else if function cb =? NULL then None
      else
        do_atomic_from (S lane) v'
          (done ++ [(lane, Call (function cb) (instruction cb) (thread cb))])
  end.

(** [do_atomic()]: the calls it makes, in order, when it returns. *)
Definition do_atomic (w : warp_inst_t) : option (list (nat * call)) :=
  if m_isatomic w && negb (m_empty w) then
    do_atomic_from 0 (m_per_scalar_thread w) []
  else None.

(** [clear()] *)
Definition clear (w : warp_inst_t) : warp_inst_t :=
  {| base := base w;
     m_empty := true;
     issue_cycle := issue_cycle w;
     m_isatomic := m_isatomic w;
     m_warp_id := m_warp_id w;
     m_warp_size := m_warp_size w;
     warp_active_mask := warp_active_mask w;
     m_per_scalar_thread_valid := m_per_scalar_thread_valid w;
     m_per_scalar_thread := m_per_scalar_thread w |}.

(** The loop of [issue]: [k] iterations are left, the next one with
    [i = k-1]; [1<<i] has the bit pattern [2^i] for every [i] of a
    bitset of 32. *)
Fixpoint issue_lanes (k : nat) (mask : Z) (bits : bitset) : option bitset :=
  match k with
  | O => Some bits
  | S k' =>
      let i := Z.of_nat k' in
      bits' ← (if Z.land mask (Z.shiftl 1 i) =? 0 then Some bits
               else bitset_set bits i);
      issue_lanes k' mask bits'
  end.

(** [issue( mask, warp_id, cycle )] *)
Definition issue (w : warp_inst_t) (mask warp_id cycle : Z) : option warp_inst_t :=
  bits ← issue_lanes (Z.to_nat (m_warp_size w)) mask (warp_active_mask w);
  Some {| base := base w;
          m_empty := false;
          issue_cycle := cycle;
          m_isatomic := m_isatomic w;
          m_warp_id := warp_id;
          m_warp_size := m_warp_size w;
          warp_active_mask := bits;
          m_per_scalar_thread_valid := m_per_scalar_thread_valid w;
          m_per_scalar_thread := m_per_scalar_thread w |}.

(** [set_addr( n, addr )] *)
Definition set_addr (w : warp_inst_t) (n addr : Z) : option warp_inst_t :=
  let v :=
    if m_per_scalar_thread_valid w then m_per_scalar_thread w
    else vector_resize (m_per_scalar_thread w) (Z.to_nat (m_warp_size w)) in
  t ← vector_at v n;
  v' ← vector_store v n
         {| callback := callback t; memreqaddr := addr; cache_miss := cache_miss t |};
  Some {| base := base w;
          m_empty := m_empty w;
          issue_cycle := issue_cycle w;
          m_isatomic := m_isatomic w;
          m_warp_id := m_warp_id w;
          m_warp_size := m_warp_size w;
          warp_active_mask := warp_active_mask w;
          m_per_scalar_thread_valid := true;
          m_per_scalar_thread := v' |}.

(** [add_callback( lane_id, function, inst, thread )] *)
Definition add_callback (w : warp_inst_t) (lane_id fn inst thr : Z) : option warp_inst_t :=
  let v :=
    if m_per_scalar_thread_valid w then m_per_scalar_thread w
    else vector_resize (m_per_scalar_thread w) (Z.to_nat (m_warp_size w)) in
  let atomic :=
    if m_per_scalar_thread_valid w then m_isatomic w else true in
  t ← vector_at v lane_id;
  v' ← vector_store v lane_id
         {| callback := {| function := fn; instruction := inst; thread := thr |};
            memreqaddr := memreqaddr t; cache_miss := cache_miss t |};
  Some {| base := base w;
          m_empty := m_empty w;
          issue_cycle := issue_cycle w;
          m_isatomic := atomic;
          m_warp_id := m_warp_id w;
          m_warp_size := m_warp_size w;
          warp_active_mask := warp_active_mask w;
          m_per_scalar_thread_valid := true;
          m_per_scalar_thread := v' |}.

(** [active( thread )] *)
Definition active (w : warp_inst_t) (thr : Z) : option bool :=
  bitset_test (warp_active_mask w) thr.

Definition empty (w : warp_inst_t) : bool := m_empty w.

(** [warp_id()] *)
Definition warp_id (w : warp_inst_t) : option Z :=
  if negb (m_empty w) then Some (m_warp_id w) else None.

(** [has_callback( n )]: [&&] evaluates its right operand only when the
    left one is true. *)
Definition has_callback (w : warp_inst_t) (n : Z) : option bool :=
  a ← bitset_index (warp_active_mask w) n;
  if negb a then Some false
  else if negb (m_per_scalar_thread_valid w) then Some false
  else
    t ← vector_at (m_per_scalar_thread w) n;
    Some (negb (function (callback t) =? NULL)).

(** [get_addr( n )] *)
Definition get_addr (w : warp_inst_t) (n : Z) : option Z :=
  if m_per_scalar_thread_valid w then
    t ← vector_at (m_per_scalar_thread w) n;
    Some (memreqaddr t)
  else None.

Definition isatomic (w : warp_inst_t) : bool := m_isatomic w.

(** *** What holds of every instruction the class builds *)

(** The width passed the constructor's assertion, and the per-lane
    array, once allocated, has one entry per lane. *)
Definition well_formed (w : warp_inst_t) : Prop :=
  0 <= m_warp_size w <= MAX_WARP_SIZE
  /\ (m_per_scalar_thread_valid w = true ->
      length (m_per_scalar_thread w) = Z.to_nat (m_warp_size w)).

(** Storage in which every field of the [inst_t] part holds zero bytes
    and the two unassigned fields hold [v]. *)
Definition blank_storage (v : Z) : warp_inst_t :=
  {| base := filled_storage Byte.x00 0;
     m_empty := false;
     issue_cycle := v;
     m_isatomic := true;
     m_warp_id := v;
     m_warp_size := v;
     warp_active_mask := bitset_empty;
     m_per_scalar_thread_valid := false;
     m_per_scalar_thread := [] |}.

(** The one call an entry with a thread gives rise to; none without. *)
Definition lane_calls (t : per_thread_info) : list call :=
  let cb := callback t in
  if thread cb =? NULL then []
  else [Call (function cb) (instruction cb) (thread cb)].

(** An entry [do_atomic] cannot call: a thread and no function. *)
Definition null_call (t : per_thread_info) : bool :=
  negb (thread (callback t) =? NULL) && (function (callback t) =? NULL).

(** Every entry with a thread has a function. *)
Definition callable (v : list per_thread_info) : Prop :=
  forall (n : nat) (t : per_thread_info),
    v !! n = Some t ->
    thread (callback t) <> NULL -> function (callback t) <> NULL.

(** The calls of a run of the loop of [do_atomic] that reaches
    [end()]. *)
Fixpoint calls_from (lane : nat) (v : list per_thread_info)
    (done : list (nat * call)) : list (nat * call) :=
  match v with
  | [] => done
  | t :: v' =>
      calls_from (S lane) v' (done ++ map (pair lane) (lane_calls t))
  end.

(** The calls of a trace that lane [n] made. *)
Definition calls_of_lane (n : nat) (trace : list (nat * call)) : list call :=
  map snd (filter (fun e => fst e = n) trace).

(** An issued atomic of width 4: lanes 0 and 2 are active; lanes 0 and
    1 carry a callback with a thread, lane 2 carries none, lane 3 a
    function without a thread. *)
Definition sample_atomic : warp_inst_t :=
  {| base := Inst.construct (filled_storage Byte.x00 0);
     m_empty := false;
     issue_cycle := 100;
     m_isatomic := true;
     m_warp_id := 7;
     m_warp_size := 4;
     warp_active_mask := 5;
     m_per_scalar_thread_valid := true;
     m_per_scalar_thread :=
       [ {| callback := DramCallback 1000 2000 3000; memreqaddr := 4096; cache_miss := false |};
         {| callback := DramCallback 1001 2000 3001; memreqaddr := 0; cache_miss := false |};
         {| callback := no_callback; memreqaddr := 4104; cache_miss := false |};
         {| callback := DramCallback 1003 2000 NULL; memreqaddr := 0; cache_miss := false |} ] |}.

(** A fresh instruction of width 4 whose lanes 0 and 2 were issued. *)
Definition sample_issued : warp_inst_t :=
  {| base := Inst.construct (filled_storage Byte.x00 0);
     m_empty := false;
     issue_cycle := 100;
     m_isatomic := false;
     m_warp_id := 7;
     m_warp_size := 4;
     warp_active_mask := 5;
     m_per_scalar_thread_valid := false;
     m_per_scalar_thread := [] |}.

(** The loop of [warp_inst_t::print_insn]: [k] iterations are left, the
    next one with [i = k-1]. *)
Fixpoint print_lanes (k : nat) (bits : bitset) : option (list output) :=
  match k with
  | O => Some []
  | S k' =>
      b ← bitset_index bits (Z.of_nat k');
      rest ← print_lanes k' bits;
      Some (Char (if b : bool then "1"%char else "0"%char) :: rest)
  end.

(** [warp_inst_t::print_insn( fp )] *)
Definition print_insn (w : warp_inst_t) : option (list output) :=
  rest ← print_lanes (Z.to_nat (m_warp_size w)) (warp_active_mask w);
  Some (Header (pc (base w)) :: rest).

(** The per-lane vector as [set_addr] and [add_callback] see it after
    their lazy allocation. *)
Definition allocated (w : warp_inst_t) : list per_thread_info :=
  if m_per_scalar_thread_valid w then m_per_scalar_thread w
  else vector_resize (m_per_scalar_thread w) (Z.to_nat (m_warp_size w)).

(** The instructions a program can hold: made by the constructor, then
    changed by the modifiers only. *)
Inductive built : warp_inst_t -> Prop :=
| built_construct raw W w :
    0 <= W -> construct raw W = Some w -> built w
| built_clear w :
    built w -> built (clear w)
| built_issue w mask id cycle w1 :
    built w -> issue w mask id cycle = Some w1 -> built w1
| built_set_addr w n addr w1 :
    built w -> set_addr w n addr = Some w1 -> built w1
| built_add_callback w lane fn inst thr w1 :
    built w -> add_callback w lane fn inst thr = Some w1 -> built w1.

(** The instruction [warp_inst_t(W)] makes on blank storage ([W] at
    most 32). *)
Definition fresh (W : Z) : warp_inst_t :=
  {| base := Inst.construct (base (blank_storage 0));
     m_warp_size := W;
     m_empty := true;
     m_isatomic := false;
     m_per_scalar_thread_valid := false;
     issue_cycle := 0;
     m_warp_id := 0;
     warp_active_mask := bitset_empty;
     m_per_scalar_thread := [] |}.

End Warp.

(** * Properties *)

(** ** 32-bit arithmetic *)

Lemma UINT_MODULUS_pos : 0 < UINT_MODULUS.
Proof. reflexivity. Qed.

Lemma wrap32_range (a : Z) : is_unsigned (wrap32 a).
Proof. apply Z.mod_pos_bound, UINT_MODULUS_pos. Qed.

Lemma wrap32_small (a : Z) : is_unsigned a -> wrap32 a = a.
Proof. intros Ha. apply Z.mod_small, Ha. Qed.

Lemma wrap32_mul_l (a b : Z) : wrap32 (wrap32 a * b) = wrap32 (a * b).
Proof. apply Z.mul_mod_idemp_l. discriminate. Qed.

Lemma wrap32_add_l (a b : Z) : wrap32 (wrap32 a + b) = wrap32 (a + b).
Proof. apply Z.add_mod_idemp_l. discriminate. Qed.

Lemma wrap32_add_r (a b : Z) : wrap32 (a + wrap32 b) = wrap32 (a + b).
Proof. apply Z.add_mod_idemp_r. discriminate. Qed.

(** A product of three [unsigned] taken left to right is the exact
    product reduced once. *)
Lemma wrap32_product3 (a b c : Z) :
  wrap32 (wrap32 (a * b) * c) = (a * b * c) mod UINT_MODULUS.
Proof. rewrite wrap32_mul_l. reflexivity. Qed.

(** ** The kernel work enumerator *)

Module KernelFacts.

Import Kernel.

(** C10. [num_blocks()] and [threads_per_cta()] return the product of the
    three extents reduced modulo 2^32: the multiplication is done on
    [unsigned] operands before the result is widened.  Whenever the exact
    product of non-negative extents reaches 2^32 the returned count is
    strictly below it. *)
Theorem counts_are_products_mod_2_32 (k : kernel_info_t) :
  num_blocks k
    = (x (m_grid_dim k) * y (m_grid_dim k) * z (m_grid_dim k)) mod 2 ^ 32
  /\ threads_per_cta k
    = (x (m_block_dim k) * y (m_block_dim k) * z (m_block_dim k)) mod 2 ^ 32
  /\ (2 ^ 32 <= x (m_grid_dim k) * y (m_grid_dim k) * z (m_grid_dim k) ->
      num_blocks k < x (m_grid_dim k) * y (m_grid_dim k) * z (m_grid_dim k))
  /\ (2 ^ 32 <= x (m_block_dim k) * y (m_block_dim k) * z (m_block_dim k) ->
      threads_per_cta k
        < x (m_block_dim k) * y (m_block_dim k) * z (m_block_dim k)).
Proof.
  unfold num_blocks, threads_per_cta.
  rewrite !wrap32_product3.
  change UINT_MODULUS with (2 ^ 32).
  repeat split; try reflexivity; intros Hbig.
  - pose proof (Z.mod_pos_bound
      (x (m_grid_dim k) * y (m_grid_dim k) * z (m_grid_dim k)) (2 ^ 32)).
    lia.
  - pose proof (Z.mod_pos_bound
      (x (m_block_dim k) * y (m_block_dim k) * z (m_block_dim k)) (2 ^ 32)).
    lia.
Qed.

(** A grid of 65536 x 65536 x 1 blocks is counted as no block at all. *)
Example num_blocks_65536_65536_1 :
  num_blocks (bind (Dim3 65536 65536 1) (Dim3 1 1 1) NULL) = 0.
Proof. reflexivity. Qed.

(** Within 32 bits the counts are the exact products. *)
Lemma num_blocks_exact (k : kernel_info_t) :
  is_unsigned (x (m_grid_dim k) * y (m_grid_dim k) * z (m_grid_dim k)) ->
  num_blocks k = x (m_grid_dim k) * y (m_grid_dim k) * z (m_grid_dim k).
Proof.
  intros Hfit. unfold num_blocks. rewrite wrap32_product3.
  apply Z.mod_small, Hfit.
Qed.

(** The flat index computed in [unsigned] is the mathematical one
    reduced once. *)
Lemma get_next_thread_id_mod (k : kernel_info_t) :
  get_next_thread_id k = linear_index k mod UINT_MODULUS.
Proof.
  unfold get_next_thread_id, linear_index.
  rewrite wrap32_add_l, wrap32_add_r.
  rewrite <- (wrap32_add_l (x (m_next_tid k) + _)), wrap32_add_r.
  rewrite wrap32_add_l.
  rewrite <- (wrap32_add_r _ (wrap32 _ * _)), wrap32_mul_l, wrap32_add_r.
  reflexivity.
Qed.

(** C7, as the code has it.  [get_next_thread_id()] returns
    x + bx*y + bx*by*z reduced modulo 2^32, hence that very number
    whenever it fits 32 bits; with block dimensions (4,4,1) and thread
    coordinate (3,1,0) it returns 7. *)
Theorem get_next_thread_id_linearizes (k : kernel_info_t) :
  get_next_thread_id k = linear_index k mod 2 ^ 32
  /\ (0 <= linear_index k < 2 ^ 32 -> get_next_thread_id k = linear_index k)
  /\ get_next_thread_id (at_thread (Dim3 4 4 1) (Dim3 3 1 0)) = 7.
Proof.
  split; [apply get_next_thread_id_mod|].
  split; [|reflexivity].
  intros Hfit. rewrite get_next_thread_id_mod. apply Z.mod_small, Hfit.
Qed.

(** C7, as the claim has it, fails once the strides overflow: in a block
    of 65536 x 65536 x 2 threads the thread (0,0,1) gets the index 0,
    not 2^32. *)
Lemma get_next_thread_id_overflows :
  get_next_thread_id (at_thread (Dim3 65536 65536 2) (Dim3 0 0 1)) = 0
  /\ linear_index (at_thread (Dim3 65536 65536 2) (Dim3 0 0 1)) = 4294967296
  /\ tid_in_block (at_thread (Dim3 65536 65536 2) (Dim3 0 0 1)).
Proof. repeat split. Qed.

(** A thread inside a block with fewer than 2^32 threads has an index
    below the block's size, so nothing wraps for it. *)
Lemma linear_index_in_block (k : kernel_info_t) :
  0 <= x (m_next_tid k) -> 0 <= y (m_next_tid k) -> 0 <= z (m_next_tid k) ->
  tid_in_block k ->
  0 <= linear_index k
     < x (m_block_dim k) * y (m_block_dim k) * z (m_block_dim k).
Proof.
  unfold tid_in_block, linear_index.
  destruct (m_next_tid k) as [tx ty tz], (m_block_dim k) as [bx By bz]; simpl.
  intros Hx Hy Hz (Hbx & Hby & Hbz).
  assert (Hrow : 0 <= bx * ty <= bx * (By - 1)) by nia.
  assert (Hplane : 0 < bx * By) by nia.
  assert (Hz' : 0 <= bx * By * tz <= bx * By * (bz - 1)) by nia.
  nia.
Qed.

(** What [more_threads_in_cta()] tests: the x coordinate of the next
    thread is never read, and z is compared against two bounds. *)
Lemma more_threads_in_cta_spec (k : kernel_info_t) :
  more_threads_in_cta k = true <->
  z (m_next_tid k) < z (m_block_dim k)
  /\ y (m_next_tid k) < y (m_block_dim k)
  /\ z (m_next_tid k) < x (m_block_dim k).
Proof.
  unfold more_threads_in_cta.
  rewrite !andb_true_iff, !Z.ltb_lt. tauto.
Qed.

(** C3.  In a block of 1 x 1 x 2 threads whose next thread is (0,0,1),
    that thread lies inside the block, yet [more_threads_in_cta()]
    answers false: its third test compares z with the block's x
    extent. *)
Theorem more_threads_in_cta_misses_last_layer :
  tid_in_block (at_thread (Dim3 1 1 2) (Dim3 0 0 1))
  /\ more_threads_in_cta (at_thread (Dim3 1 1 2) (Dim3 0 0 1)) = false.
Proof. repeat split. Qed.

(** That state is the one a kernel bound to blocks of 1 x 1 x 2 threads
    is in after its first [increment_thread_id()] (with the coordinate
    enumerator as the specification describes it): the second thread of
    the block is never reported. *)
Lemma more_threads_in_cta_after_first_thread (grid : dim3) (entry : Z) :
  get_next_thread_id_3d (increment_thread_id (bind grid (Dim3 1 1 2) entry))
  = Dim3 0 0 1
  /\ more_threads_in_cta (bind grid (Dim3 1 1 2) entry) = true
  /\ more_threads_in_cta (increment_thread_id (bind grid (Dim3 1 1 2) entry))
     = false.
Proof. repeat split. Qed.

(** In the other direction it answers true for an x coordinate at the
    bound. *)
Example more_threads_in_cta_ignores_x :
  more_threads_in_cta (at_thread (Dim3 4 4 4) (Dim3 4 0 0)) = true
  /\ ~ tid_in_block (at_thread (Dim3 4 4 4) (Dim3 4 0 0)).
Proof. split; [reflexivity|]. unfold tid_in_block; simpl. lia. Qed.

End KernelFacts.

(** ** Memory spaces *)

Module MemorySpaceFacts.

Import MemorySpace.

Lemma enum_value_inj (s t : _memory_space_t) :
  enum_value s = enum_value t -> s = t.
Proof. destruct s, t; simpl; intros H; (reflexivity || discriminate H). Qed.

Lemma enum_value_range (s : _memory_space_t) : 0 <= enum_value s <= 12.
Proof. destruct s; simpl; lia. Qed.

Lemma eqb_true_iff (a b : memory_space_t) :
  eqb a b = true <-> m_type a = m_type b /\ m_bank a = m_bank b.
Proof.
  unfold eqb. rewrite andb_true_iff, !Z.eqb_eq. split.
  - intros [Hbank Htype]. split; [apply enum_value_inj, Htype | exact Hbank].
  - intros [Htype Hbank]. rewrite Htype. split; [exact Hbank | reflexivity].
Qed.

(** [==] decides equality of the two values. *)
Lemma eqb_eq (a b : memory_space_t) : eqb a b = true <-> a = b.
Proof.
  rewrite eqb_true_iff. destruct a as [ta na], b as [tb nb]; simpl. split.
  - intros [-> ->]. reflexivity.
  - intros H. injection H as -> ->. split; reflexivity.
Qed.

Lemma ltb_true_iff (a b : memory_space_t) :
  ltb a b = true <->
  enum_value (m_type a) < enum_value (m_type b)
  \/ (m_type a = m_type b /\ m_bank a < m_bank b).
Proof.
  unfold ltb.
  destruct (Z.ltb_spec (enum_value (m_type a)) (enum_value (m_type b))) as [Hlt|Hge].
  - split; [intros _; left; exact Hlt | reflexivity].
  - destruct (Z.ltb_spec (enum_value (m_type b)) (enum_value (m_type a))) as [Hgt|Hle].
    + split; [discriminate|].
      intros [Hlt | [Heq _]]; [lia | rewrite Heq in Hgt; lia].
    + assert (Heq : m_type a = m_type b) by (apply enum_value_inj; lia).
      destruct (Z.ltb_spec (m_bank a) (m_bank b)) as [Hb|Hb].
      * split; [intros _; right; split; assumption | reflexivity].
      * split; [discriminate|]. intros [Hlt | [_ Hlt]]; lia.
Qed.

(** [<] is a strict total order on memory spaces. *)
Lemma ltb_irrefl (a : memory_space_t) : ltb a a = false.
Proof.
  destruct (ltb a a) eqn:E; [|reflexivity].
  apply ltb_true_iff in E. lia.
Qed.

Lemma ltb_trans (a b c : memory_space_t) :
  ltb a b = true -> ltb b c = true -> ltb a c = true.
Proof.
  rewrite !ltb_true_iff.
  intros [Hab | [Hab Hab']] [Hbc | [Hbc Hbc']].
  - left; lia.
  - left; rewrite <- Hbc; exact Hab.
  - left; rewrite Hab; exact Hbc.
  - right; split; [congruence | lia].
Qed.

Lemma ltb_total (a b : memory_space_t) :
  ltb a b = true \/ a = b \/ ltb b a = true.
Proof.
  rewrite !ltb_true_iff. destruct a as [ta na], b as [tb nb]; simpl.
  destruct (Z.lt_trichotomy (enum_value ta) (enum_value tb)) as [H | [H | H]].
  - left; left; exact H.
  - apply enum_value_inj in H. subst tb.
    destruct (Z.lt_trichotomy na nb) as [Hn | [Hn | Hn]].
    + left; right; split; [reflexivity | exact Hn].
    + right; left; subst; reflexivity.
    + right; right; right; split; [reflexivity | exact Hn].
  - right; right; left; exact H.
Qed.

(** C8.  [a == b] holds exactly when tags and banks both match, and
    [a < b] is the lexicographic strict order on (tag, bank); so two
    instances built from one tag with one [set_bank] value are equal,
    and with equal tags the order (and the equality) is that of the
    banks. *)
Theorem memory_space_eq_and_order
    (a b : memory_space_t) (t : _memory_space_t) (n1 n2 : Z) :
  (eqb a b = true <-> m_type a = m_type b /\ m_bank a = m_bank b)
  /\ (ltb a b = true <->
      enum_value (m_type a) < enum_value (m_type b)
      \/ (m_type a = m_type b /\ m_bank a < m_bank b))
  /\ eqb (set_bank (of_type t) n1) (set_bank (of_type t) n1) = true
  /\ eqb (set_bank (of_type t) n1) (set_bank (of_type t) n2) = (n1 =? n2)
  /\ ltb (set_bank (of_type t) n1) (set_bank (of_type t) n2) = (n1 <? n2).
Proof.
  split; [apply eqb_true_iff|].
  split; [apply ltb_true_iff|].
  unfold eqb, ltb, set_bank, of_type; simpl.
  rewrite !Z.eqb_refl, Z.ltb_irrefl, !andb_true_r.
  repeat split. destruct (n1 <? n2); reflexivity.
Qed.

(** [.const[1]] and [.const[2]]: unequal, and the smaller bank first. *)
Example const_banks_1_2 :
  eqb (set_bank (of_type const_space) 1) (set_bank (of_type const_space) 2) = false
  /\ neqb (set_bank (of_type const_space) 1) (set_bank (of_type const_space) 2) = true
  /\ ltb (set_bank (of_type const_space) 1) (set_bank (of_type const_space) 2) = true
  /\ ltb (set_bank (of_type const_space) 2) (set_bank (of_type const_space) 1) = false.
Proof. repeat split. Qed.

End MemorySpaceFacts.

(** ** The scalar instruction *)

Module InstFacts.

Import Inst.

Lemma memset_length (s : list Byte.byte) (c : Byte.byte) (n : nat) :
  length (memset s c n) = length s.
Proof.
  revert s; induction n as [|n IH]; intros [|b s]; simpl; try reflexivity.
  rewrite IH. reflexivity.
Qed.

(** Inside the array, [memset] writes [n] bytes and keeps the rest. *)
Lemma memset_inside (s : list Byte.byte) (c : Byte.byte) (n : nat) :
  (n <= length s)%nat -> memset s c n = replicate n c ++ drop n s.
Proof.
  revert s; induction n as [|n IH]; intros s Hn.
  - destruct s; reflexivity.
  - destruct s as [|b s]; simpl in Hn; [lia|].
    simpl. rewrite IH by lia. reflexivity.
Qed.

Lemma memset_drop (s : list Byte.byte) (c : Byte.byte) (n : nat) :
  drop n (memset s c n) = drop n s.
Proof.
  revert s; induction n as [|n IH]; intros [|b s]; simpl; try reflexivity.
  apply IH.
Qed.

(** A slot past the bytes written is read as before. *)
Lemma load_unsigned_after_memset (s : list Byte.byte) (c : Byte.byte) (i : nat) :
  (1 <= i)%nat ->
  load_unsigned (memset s c sizeof_unsigned) i = load_unsigned s i.
Proof.
  intros Hi. unfold load_unsigned.
  replace (sizeof_unsigned * i)%nat
    with (sizeof_unsigned + sizeof_unsigned * (i - 1))%nat
    by (unfold sizeof_unsigned; lia).
  rewrite <- !drop_drop, memset_drop. reflexivity.
Qed.

Lemma load_unsigned_first_zeroed (s : list Byte.byte) :
  (sizeof_unsigned <= length s)%nat ->
  load_unsigned (memset s Byte.x00 sizeof_unsigned) 0 = Some 0.
Proof.
  intros Hlen. rewrite memset_inside by exact Hlen.
  unfold load_unsigned, sizeof_unsigned. simpl. reflexivity.
Qed.

(** C9.  [inst_t()] zeroes slot 0 of [out] and slot 0 of [in] and
    nothing more of the two arrays: slots 1 to 3 (the bytes from the
    fifth on) hold after the constructor what the storage held before. *)
Theorem construct_zeroes_first_slot_only (raw : inst_t) :
  storage_ok raw ->
  load_unsigned (out (construct raw)) 0 = Some 0
  /\ load_unsigned (in_ (construct raw)) 0 = Some 0
  /\ (forall i : nat, (1 <= i)%nat ->
        load_unsigned (out (construct raw)) i = load_unsigned (out raw) i
        /\ load_unsigned (in_ (construct raw)) i = load_unsigned (in_ raw) i)
  /\ drop sizeof_unsigned (out (construct raw)) = drop sizeof_unsigned (out raw)
  /\ drop sizeof_unsigned (in_ (construct raw)) = drop sizeof_unsigned (in_ raw).
Proof.
  intros (Hout & Hin & _). simpl.
  split; [apply load_unsigned_first_zeroed; rewrite Hout; unfold sizeof_unsigned; lia|].
  split; [apply load_unsigned_first_zeroed; rewrite Hin; unfold sizeof_unsigned; lia|].
  split; [|split; apply memset_drop].
  intros i Hi. split; apply load_unsigned_after_memset, Hi.
Qed.

(** On storage full of [0xff] bytes the constructor leaves
    [out[1]] = [in[1]] = 0xffffffff. *)
Lemma construct_zeroes_first_slot_only_witness :
  storage_ok (filled_storage Byte.xff 7)
  /\ load_unsigned (out (construct (filled_storage Byte.xff 7))) 0 = Some 0
  /\ load_unsigned (out (construct (filled_storage Byte.xff 7))) 1 = Some 4294967295
  /\ load_unsigned (in_ (construct (filled_storage Byte.xff 7))) 3 = Some 4294967295.
Proof.
  assert (Hok : storage_ok (filled_storage Byte.xff 7)) by (repeat split).
  destruct (construct_zeroes_first_slot_only _ Hok) as (H0 & _ & Hrest & _).
  split; [exact Hok|]. split; [exact H0|].
  split.
  - rewrite (proj1 (Hrest 1%nat (le_n 1))). reflexivity.
  - rewrite (proj2 (Hrest 3%nat ltac:(lia))). reflexivity.
Defined.

(** The other fields the constructor assigns. *)
Lemma construct_placeholder (raw : inst_t) :
  storage_ok raw ->
  valid (construct raw) = false
  /\ pc (construct raw) = 4294967295
  /\ op (construct raw) = NO_OP
  /\ arch_reg (construct raw) = replicate MAX_REG_OPERANDS (-1).
Proof.
  intros (_ & _ & Hregs). repeat split.
  simpl. destruct (arch_reg raw) as [|r0 [|r1 [|r2 [|r3 [|r4 [|r5 [|r6 [|r7 [|r8 l]]]]]]]]];
    try discriminate Hregs. reflexivity.
Qed.

End InstFacts.

(** ** The warp instruction *)

Module WarpFacts.

Import Inst Warp.

(** *** The per-lane vector *)

Lemma vector_resize_length (v : list per_thread_info) (n : nat) :
  length (vector_resize v n) = n.
Proof.
  unfold vector_resize.
  rewrite length_app, length_take, length_replicate. lia.
Qed.

Lemma vector_at_inside (v : list per_thread_info) (n : Z) :
  0 <= n < Z.of_nat (length v) -> exists t, vector_at v n = Some t.
Proof.
  intros [Hlo Hhi]. unfold vector_at.
  destruct (Z.leb_spec 0 n) as [_|Hneg]; [|lia].
  destruct (lookup_lt_is_Some_2 v (Z.to_nat n)) as [t Ht]; [lia|].
  exists t. exact Ht.
Qed.

Lemma vector_at_outside (v : list per_thread_info) (n : Z) :
  Z.of_nat (length v) <= n -> vector_at v n = None.
Proof.
  intros Hn. unfold vector_at.
  destruct (Z.leb_spec 0 n) as [_|Hneg]; [|reflexivity].
  apply lookup_ge_None_2. lia.
Qed.

Lemma vector_store_inside (v : list per_thread_info) (n : Z) (t : per_thread_info) :
  0 <= n < Z.of_nat (length v) ->
  vector_store v n t = Some (<[Z.to_nat n := t]> v).
Proof.
  intros Hn. unfold vector_store.
  destruct (vector_at_inside v n Hn) as [t0 ->]. reflexivity.
Qed.

Lemma vector_at_store (v : list per_thread_info) (n : Z) (t : per_thread_info) :
  0 <= n < Z.of_nat (length v) ->
  vector_at (<[Z.to_nat n := t]> v) n = Some t.
Proof.
  intros [Hlo Hhi]. unfold vector_at.
  destruct (Z.leb_spec 0 n) as [_|Hneg]; [|lia].
  apply list_lookup_insert_eq. lia.
Qed.

Lemma vector_at_store_other (v : list per_thread_info) (n m : Z) (t : per_thread_info) :
  0 <= n -> 0 <= m -> n <> m ->
  vector_at (<[Z.to_nat n := t]> v) m = vector_at v m.
Proof.
  intros Hn Hm Hne. unfold vector_at.
  destruct (Z.leb_spec 0 m) as [_|Hneg]; [|lia].
  apply list_lookup_insert_ne. lia.
Qed.

(** The vector [set_addr] and [add_callback] work on, after their lazy
    allocation. *)
Lemma allocated_length (w : warp_inst_t) :
  well_formed w ->
  length (if m_per_scalar_thread_valid w then m_per_scalar_thread w
          else vector_resize (m_per_scalar_thread w) (Z.to_nat (m_warp_size w)))
  = Z.to_nat (m_warp_size w).
Proof.
  intros [_ Hlen]. destruct (m_per_scalar_thread_valid w).
  - apply Hlen. reflexivity.
  - apply vector_resize_length.
Qed.

(** *** The active mask *)

Lemma land_bit_is_zero (m i : Z) :
  0 <= i -> (Z.land m (Z.shiftl 1 i) =? 0) = negb (Z.testbit m i).
Proof.
  intros Hi. rewrite Z.shiftl_1_l.
  destruct (Z.testbit m i) eqn:Hbit; simpl.
  - apply Z.eqb_neq. intros Hzero.
    assert (Hland : Z.testbit (Z.land m (2 ^ i)) i = true).
    { rewrite Z.land_spec, Hbit, Z.pow2_bits_eqb, Z.eqb_refl by exact Hi. reflexivity. }
    rewrite Hzero, Z.bits_0 in Hland. discriminate Hland.
  - apply Z.eqb_eq. apply Z.bits_inj'. intros j Hj.
    rewrite Z.land_spec, Z.bits_0, Z.pow2_bits_eqb by exact Hi.
    destruct (Z.eqb_spec i j) as [<-|Hne].
    + rewrite Hbit. reflexivity.
    + apply andb_false_r.
Qed.

Lemma bitset_set_bits (b i j : Z) :
  0 <= i -> 0 <= j ->
  Z.testbit (Z.lor b (Z.shiftl 1 i)) j = Z.testbit b j || (j =? i).
Proof.
  intros Hi Hj.
  rewrite Z.lor_spec, Z.shiftl_1_l, Z.pow2_bits_eqb by exact Hi.
  rewrite (Z.eqb_sym i j). reflexivity.
Qed.

(** The loop of [issue] adds to the mask the bits of [mask] below the
    warp width, and removes none. *)
Lemma issue_lanes_bits (k : nat) (mask bits : Z) :
  Z.of_nat k <= MAX_WARP_SIZE ->
  exists bits',
    issue_lanes k mask bits = Some bits'
    /\ forall j, 0 <= j ->
         Z.testbit bits' j
         = Z.testbit bits j || ((j <? Z.of_nat k) && Z.testbit mask j).
Proof.
  revert bits. induction k as [|k IH]; intros bits Hk.
  - exists bits. split; [reflexivity|]. intros j Hj.
    destruct (Z.ltb_spec j (Z.of_nat 0)) as [Hlt|_]; [lia|].
    rewrite orb_false_r. reflexivity.
  - cbn [issue_lanes].
    rewrite land_bit_is_zero by lia.
    assert (Hrange : bitset_in_range (Z.of_nat k) = true).
    { unfold bitset_in_range. apply andb_true_iff.
      split; [apply Z.leb_le | apply Z.ltb_lt]; lia. }
    destruct (Z.testbit mask (Z.of_nat k)) eqn:Hbit; cbn [negb].
    + unfold bitset_set. rewrite Hrange. cbn.
      destruct (IH (Z.lor bits (Z.shiftl 1 (Z.of_nat k)))) as (bits' & Hrun & Hbits); [lia|].
      exists bits'. split; [exact Hrun|]. intros j Hj.
      rewrite Hbits, bitset_set_bits by lia.
      destruct (Z.eqb_spec j (Z.of_nat k)) as [Heq|Hne];
        destruct (Z.ltb_spec j (Z.of_nat k));
        destruct (Z.ltb_spec j (Z.of_nat (S k)));
        try lia; try rewrite Heq, Hbit; cbn; btauto.
    + cbn.
      destruct (IH bits) as (bits' & Hrun & Hbits); [lia|].
      exists bits'. split; [exact Hrun|]. intros j Hj.
      rewrite Hbits by lia.
      destruct (Z.eqb_spec j (Z.of_nat k)) as [Heq|Hne];
        destruct (Z.ltb_spec j (Z.of_nat k));
        destruct (Z.ltb_spec j (Z.of_nat (S k)));
        try lia; try rewrite Heq, Hbit; cbn; btauto.
Qed.

(** [issue] on a well-formed instruction: lane [i] below the width is
    active afterwards when it was before or when bit [i] of the mask is
    set. *)
Lemma issue_active (w : warp_inst_t) (mask id cycle i : Z) :
  well_formed w -> 0 <= i < m_warp_size w ->
  exists w1,
    issue w mask id cycle = Some w1
    /\ empty w1 = false
    /\ warp_id w1 = Some id
    /\ active w1 i = Some (Z.testbit (warp_active_mask w) i || Z.testbit mask i).
Proof.
  intros [Hsize _] Hi. unfold issue.
  destruct (issue_lanes_bits (Z.to_nat (m_warp_size w)) mask (warp_active_mask w))
    as (bits & -> & Hbits); [lia|].
  eexists. split; [reflexivity|]. split; [reflexivity|]. split; [reflexivity|].
  unfold active, bitset_test, bitset_in_range; cbn.
  destruct (Z.leb_spec 0 i); [|lia].
  destruct (Z.ltb_spec i MAX_WARP_SIZE); [|lia]. cbn.
  rewrite Hbits by lia.
  destruct (Z.ltb_spec i (Z.of_nat (Z.to_nat (m_warp_size w)))); [|lia].
  reflexivity.
Qed.

(** *** Well-formedness is established and kept by every operation *)

Lemma construct_well_formed (raw : warp_inst_t) (W : Z) (w : warp_inst_t) :
  0 <= W -> construct raw W = Some w ->
  well_formed w /\ empty w = true /\ isatomic w = false
  /\ m_warp_size w = W /\ warp_active_mask w = bitset_empty
  /\ m_per_scalar_thread_valid w = false.
Proof.
  unfold construct. intros HW.
  destruct (Z.leb_spec W MAX_WARP_SIZE) as [Hle|Hgt]; [|discriminate].
  intros [= <-]. unfold well_formed; cbn.
  repeat split; try assumption. discriminate.
Qed.

Lemma clear_well_formed (w : warp_inst_t) :
  well_formed w -> well_formed (clear w).
Proof. intros H. exact H. Qed.

Lemma issue_well_formed (w : warp_inst_t) (mask id cycle : Z) (w1 : warp_inst_t) :
  well_formed w -> issue w mask id cycle = Some w1 -> well_formed w1.
Proof.
  intros Hwf. unfold issue.
  destruct (issue_lanes _ _ _); [|discriminate].
  intros [= <-]. exact Hwf.
Qed.

Lemma set_addr_well_formed (w : warp_inst_t) (n addr : Z) (w1 : warp_inst_t) :
  well_formed w -> set_addr w n addr = Some w1 -> well_formed w1.
Proof.
  intros Hwf. pose proof (allocated_length w Hwf) as Hlen.
  destruct Hwf as [Hsize _]. unfold set_addr.
  destruct (vector_at _ n) as [t|]; [|discriminate]. cbn.
  unfold vector_store. destruct (vector_at _ n); [|discriminate].
  intros [= <-]. split; [exact Hsize|]. cbn. intros _.
  rewrite length_insert. exact Hlen.
Qed.

Lemma add_callback_well_formed (w : warp_inst_t) (n fn inst thr : Z) (w1 : warp_inst_t) :
  well_formed w -> add_callback w n fn inst thr = Some w1 -> well_formed w1.
Proof.
  intros Hwf. pose proof (allocated_length w Hwf) as Hlen.
  destruct Hwf as [Hsize _]. unfold add_callback.
  destruct (vector_at _ n) as [t|]; [|discriminate]. cbn.
  unfold vector_store. destruct (vector_at _ n); [|discriminate].
  intros [= <-]. split; [exact Hsize|]. cbn. intros _.
  rewrite length_insert. exact Hlen.
Qed.

Lemma sample_atomic_well_formed : well_formed sample_atomic.
Proof. split; [cbn; unfold MAX_WARP_SIZE; lia | reflexivity]. Qed.

Lemma sample_issued_well_formed : well_formed sample_issued.
Proof. split; [cbn; unfold MAX_WARP_SIZE; lia | discriminate]. Qed.

(** *** [clear] *)

(** C1, as the code has it.  [clear()] makes [empty()] true and leaves
    the active mask as it was: [active(i)] answers after [clear()] what
    it answered before.  So no lane is active after [clear()] on a
    freshly constructed instruction, whereas after
    [issue(mask, id, cycle)] and [clear()] a lane below the width is
    active when it was active before or its mask bit is set. *)
Theorem clear_sets_empty_and_keeps_mask (w : warp_inst_t) (i : Z) :
  empty (clear w) = true
  /\ active (clear w) i = active w i
  /\ (forall raw W w0,
        construct raw W = Some w0 -> 0 <= i < MAX_WARP_SIZE ->
        empty (clear w0) = true /\ active (clear w0) i = Some false)
  /\ (forall mask id cycle,
        well_formed w -> 0 <= i < m_warp_size w ->
        exists w1,
          issue w mask id cycle = Some w1
          /\ empty (clear w1) = true
          /\ active (clear w1) i
             = Some (Z.testbit (warp_active_mask w) i || Z.testbit mask i)).
Proof.
  split; [reflexivity|]. split; [reflexivity|]. split.
  - intros raw W w0. unfold construct.
    destruct (W <=? MAX_WARP_SIZE); [|discriminate].
    intros [= <-] Hi. split; [reflexivity|].
    unfold active, bitset_test, bitset_in_range; cbn.
    destruct (Z.leb_spec 0 i); [|lia].
    destruct (Z.ltb_spec i MAX_WARP_SIZE); [|lia]. cbn.
    rewrite Z.bits_0. reflexivity.
  - intros mask id cycle Hwf Hi.
    destruct (issue_active w mask id cycle i Hwf Hi) as (w1 & Hrun & _ & _ & Hact).
    exists w1. split; [exact Hrun|]. split; [reflexivity|]. exact Hact.
Qed.

(** C1, as the claim has it, fails: a fresh instruction of width 32
    issued with mask 5 and then cleared is empty, and its lanes 0 and 2
    are still active. *)
Lemma clear_leaves_issued_lanes_active :
  (w0 ← construct (blank_storage 0) 32;
   w1 ← issue w0 5 7 100;
   Some (empty w0, active w0 0, empty (clear w1),
         active (clear w1) 0, active (clear w1) 1, active (clear w1) 2))
  = Some (true, Some false, true, Some true, Some false, Some true).
Proof. reflexivity. Qed.

(** *** [set_addr] and [get_addr] *)

(** C5.  On a lane below the width, [set_addr(n, a)] succeeds and
    [get_addr(n)] then returns [a], whatever the active mask (which
    [set_addr] does not touch); after it the per-lane array is allocated
    with one entry per lane. *)
Theorem set_addr_then_get_addr (w : warp_inst_t) (n a : Z) :
  well_formed w -> 0 <= n < m_warp_size w ->
  exists w1,
    set_addr w n a = Some w1
    /\ get_addr w1 n = Some a
    /\ m_per_scalar_thread_valid w1 = true
    /\ length (m_per_scalar_thread w1) = Z.to_nat (m_warp_size w)
    /\ warp_active_mask w1 = warp_active_mask w.
Proof.
  intros Hwf Hn. pose proof (allocated_length w Hwf) as Hlen.
  unfold set_addr.
  set (v := if m_per_scalar_thread_valid w then m_per_scalar_thread w
            else vector_resize (m_per_scalar_thread w) (Z.to_nat (m_warp_size w))) in *.
  assert (Hin : 0 <= n < Z.of_nat (length v)) by lia.
  destruct (vector_at_inside v n Hin) as [t Ht]. rewrite Ht. cbn.
  rewrite vector_store_inside by exact Hin. cbn.
  eexists. split; [reflexivity|].
  unfold get_addr; cbn. rewrite vector_at_store by exact Hin. cbn.
  split; [reflexivity|]. split; [reflexivity|].
  split; [rewrite length_insert; exact Hlen | reflexivity].
Qed.

Lemma set_addr_then_get_addr_witness :
  well_formed sample_issued
  /\ 0 <= 1 < m_warp_size sample_issued
  /\ active sample_issued 1 = Some false
  /\ exists w1, set_addr sample_issued 1 4096 = Some w1 /\ get_addr w1 1 = Some 4096.
Proof.
  assert (Hlane : 0 <= 1 < m_warp_size sample_issued) by (cbn; lia).
  split; [exact sample_issued_well_formed|].
  split; [exact Hlane|]. split; [reflexivity|].
  destruct (set_addr_then_get_addr sample_issued 1 4096
              sample_issued_well_formed Hlane) as (w1 & Hset & Hget & _).
  exists w1. split; [exact Hset | exact Hget].
Defined.

(** [get_addr] before any allocation fails its assertion. *)
Lemma get_addr_unallocated (w : warp_inst_t) (n : Z) :
  m_per_scalar_thread_valid w = false -> get_addr w n = None.
Proof. intros Hv. unfold get_addr. rewrite Hv. reflexivity. Qed.

(** *** [add_callback] *)

(** C2, as the code has it.  On a lane below the width
    [add_callback(n, function, instruction, thread)] stores the triple
    for lane [n], and [isatomic()] is true afterwards when it was true
    before or when this call allocated the per-lane array; when the
    array was already allocated the flag keeps its value. *)
Theorem add_callback_marks_atomic_on_allocation
    (w : warp_inst_t) (n fn inst thr : Z) :
  well_formed w -> 0 <= n < m_warp_size w ->
  exists w1 t,
    add_callback w n fn inst thr = Some w1
    /\ isatomic w1 = isatomic w || negb (m_per_scalar_thread_valid w)
    /\ (m_per_scalar_thread_valid w = false -> isatomic w1 = true)
    /\ (m_per_scalar_thread_valid w = true -> isatomic w1 = isatomic w)
    /\ vector_at (m_per_scalar_thread w1) n = Some t
    /\ callback t = {| function := fn; instruction := inst; thread := thr |}.
Proof.
  intros Hwf Hn. pose proof (allocated_length w Hwf) as Hlen.
  unfold add_callback.
  set (v := if m_per_scalar_thread_valid w then m_per_scalar_thread w
            else vector_resize (m_per_scalar_thread w) (Z.to_nat (m_warp_size w))) in *.
  assert (Hin : 0 <= n < Z.of_nat (length v)) by lia.
  destruct (vector_at_inside v n Hin) as [t Ht]. rewrite Ht. cbn.
  rewrite vector_store_inside by exact Hin. cbn.
  eexists. eexists. split; [reflexivity|].
  unfold isatomic; cbn. rewrite vector_at_store by exact Hin.
  destruct (m_per_scalar_thread_valid w), (m_isatomic w); cbn;
    repeat split; intros; congruence.
Qed.

Lemma add_callback_marks_atomic_on_allocation_witness :
  well_formed sample_issued
  /\ 0 <= 2 < m_warp_size sample_issued
  /\ isatomic sample_issued = false
  /\ exists w1, add_callback sample_issued 2 1000 2000 3000 = Some w1
                /\ isatomic w1 = true.
Proof.
  assert (Hlane : 0 <= 2 < m_warp_size sample_issued) by (cbn; lia).
  split; [exact sample_issued_well_formed|].
  split; [exact Hlane|]. split; [reflexivity|].
  destruct (add_callback_marks_atomic_on_allocation sample_issued 2 1000 2000 3000
              sample_issued_well_formed Hlane) as (w1 & t & Hadd & _ & Hfresh & _).
  exists w1. split; [exact Hadd | apply Hfresh; reflexivity].
Defined.

(** C2, as the claim has it, fails: when [set_addr] allocated the
    per-lane array first, [add_callback] stores the callback (so that
    [has_callback] answers true on the active lane) and [isatomic()]
    stays false; [do_atomic()] then fails its assertion. *)
Lemma add_callback_after_set_addr_not_atomic :
  (w0 ← construct (blank_storage 0) 32;
   w1 ← issue w0 1 7 100;
   w2 ← set_addr w1 0 4096;
   w3 ← add_callback w2 0 1000 2000 3000;
   Some (isatomic w3, has_callback w3 0, do_atomic w3))
  = Some (false, Some true, None).
Proof. reflexivity. Qed.

(** With [add_callback] first, the flag is set. *)
Example add_callback_first_is_atomic :
  (w0 ← construct (blank_storage 0) 32;
   w1 ← issue w0 1 7 100;
   w2 ← add_callback w1 0 1000 2000 3000;
   w3 ← set_addr w2 0 4096;
   Some (isatomic w3, has_callback w3 0, do_atomic w3))
  = Some (true, Some true, Some [(0%nat, Call 1000 2000 3000)]).
Proof. reflexivity. Qed.

(** *** [has_callback] *)

(** C6.  On a lane below the width [has_callback(n)] always answers,
    and answers true exactly when lane [n] is active, the per-lane array
    is allocated and the function stored for lane [n] is not null; with
    no array allocated the answer is false. *)
Theorem has_callback_iff (w : warp_inst_t) (n : Z) :
  well_formed w -> 0 <= n < m_warp_size w ->
  exists b,
    has_callback w n = Some b
    /\ (b = true <->
        Z.testbit (warp_active_mask w) n = true
        /\ m_per_scalar_thread_valid w = true
        /\ exists t, vector_at (m_per_scalar_thread w) n = Some t
                     /\ function (callback t) <> NULL)
    /\ (m_per_scalar_thread_valid w = false -> b = false)
    /\ active w n = Some (Z.testbit (warp_active_mask w) n).
Proof.
  intros [Hsize Hlen] Hn.
  assert (Hrange : bitset_in_range n = true).
  { unfold bitset_in_range. apply andb_true_iff.
    split; [apply Z.leb_le | apply Z.ltb_lt]; lia. }
  unfold has_callback, active, bitset_index, bitset_test.
  rewrite Hrange. cbn.
  destruct (Z.testbit (warp_active_mask w) n) eqn:Hbit; cbn.
  2:{ exists false. repeat split; try discriminate.
      intros (Habs & _); discriminate Habs. }
  destruct (m_per_scalar_thread_valid w) eqn:Hvalid; cbn.
  2:{ exists false. repeat split; try discriminate.
      intros (_ & Habs & _); discriminate Habs. }
  destruct (vector_at_inside (m_per_scalar_thread w) n) as [t Ht].
  { rewrite Hlen by reflexivity. lia. }
  rewrite Ht. cbn. eexists. split; [reflexivity|].
  split; [|split; [discriminate | reflexivity]].
  rewrite negb_true_iff, Z.eqb_neq. split.
  - intros Hfn. split; [reflexivity|]. split; [reflexivity|].
    exists t. split; [reflexivity | exact Hfn].
  - intros (_ & _ & t' & [= <-] & Hfn). exact Hfn.
Qed.

Lemma has_callback_iff_witness :
  well_formed sample_atomic /\ 0 <= 0 < m_warp_size sample_atomic
  /\ has_callback sample_atomic 0 = Some true
  /\ has_callback sample_atomic 1 = Some false
  /\ has_callback sample_atomic 2 = Some false
  /\ has_callback sample_issued 0 = Some false
  /\ exists b, has_callback sample_atomic 0 = Some b
               /\ Z.testbit (warp_active_mask sample_atomic) 0 = true.
Proof.
  assert (Hlane : 0 <= 0 < m_warp_size sample_atomic) by (cbn; lia).
  split; [exact sample_atomic_well_formed|]. split; [exact Hlane|].
  do 4 (split; [reflexivity|]).
  destruct (has_callback_iff sample_atomic 0 sample_atomic_well_formed Hlane)
    as (b & Hb & Hiff & _).
  exists b. split; [exact Hb|].
  assert (Hyes : b = true) by (cbv in Hb; congruence).
  exact (proj1 (proj1 Hiff Hyes)).
Defined.

(** *** [do_atomic] *)

(** The calls made so far are kept, and the loop adds its own after
    them. *)
Lemma calls_from_app (v : list per_thread_info) (lane : nat)
    (done : list (nat * call)) :
  calls_from lane v done = done ++ calls_from lane v [].
Proof.
  revert lane done. induction v as [|t v IH]; intros lane done; cbn.
  - rewrite app_nil_r. reflexivity.
  - rewrite IH, (IH _ (map _ _)), <- app_assoc. reflexivity.
Qed.

Lemma calls_from_cons (t : per_thread_info) (v : list per_thread_info) (lane : nat) :
  calls_from lane (t :: v) []
  = map (pair lane) (lane_calls t) ++ calls_from (S lane) v [].
Proof. cbn [calls_from app]. apply calls_from_app. Qed.

Lemma callable_cons (t : per_thread_info) (v : list per_thread_info) :
  callable (t :: v) <-> null_call t = false /\ callable v.
Proof.
  unfold callable, null_call. split.
  - intros Hall. split.
    + destruct (Z.eqb_spec (thread (callback t)) NULL) as [|Hthr]; [reflexivity|].
      cbn. apply Z.eqb_neq. apply (Hall 0%nat t); [reflexivity | exact Hthr].
    + intros n t' Hlook. apply (Hall (S n) t'). exact Hlook.
  - intros [Hhead Htail] [|n] t' Hlook Hthr.
    + injection Hlook as <-.
      apply andb_false_iff in Hhead as [Hhead | Hhead].
      * apply negb_false_iff, Z.eqb_eq in Hhead. contradiction.
      * apply Z.eqb_neq, Hhead.
    + apply (Htail n t'); assumption.
Qed.

Lemma callable_existsb (v : list per_thread_info) :
  callable v <-> existsb null_call v = false.
Proof.
  induction v as [|t v IH].
  - split; [reflexivity|]. intros _ n t Hlook. discriminate Hlook.
  - rewrite callable_cons, IH. cbn [existsb]. rewrite orb_false_iff. reflexivity.
Qed.

(** The loop returns exactly when no entry carries a thread and a null
    function, and then with the calls of [calls_from]. *)
Lemma do_atomic_from_run (v : list per_thread_info) (lane : nat)
    (done : list (nat * call)) :
  do_atomic_from lane v done
  = if existsb null_call v then None else Some (calls_from lane v done).
Proof.
  revert lane done. induction v as [|t v IH]; intros lane done.
  - reflexivity.
  - cbn [do_atomic_from calls_from existsb]. unfold null_call, lane_calls.
    destruct (thread (callback t) =? NULL); cbn [negb andb orb map].
    + rewrite app_nil_r. apply IH.
    + destruct (function (callback t) =? NULL); cbn [orb]; [reflexivity|].
      apply IH.
Qed.

Lemma do_atomic_from_callable (v : list per_thread_info) (lane : nat) :
  callable v -> do_atomic_from lane v [] = Some (calls_from lane v []).
Proof.
  intros Hok. rewrite do_atomic_from_run.
  apply callable_existsb in Hok. rewrite Hok. reflexivity.
Qed.

Lemma calls_of_lane_app (n : nat) (l1 l2 : list (nat * call)) :
  calls_of_lane n (l1 ++ l2) = calls_of_lane n l1 ++ calls_of_lane n l2.
Proof. unfold calls_of_lane. rewrite filter_app, map_app. reflexivity. Qed.

Lemma calls_of_lane_own (n lane : nat) (cs : list call) :
  calls_of_lane n (map (pair lane) cs) = if decide (lane = n) then cs else [].
Proof.
  unfold calls_of_lane. induction cs as [|c cs IH]; cbn [map].
  - destruct (decide (lane = n)); reflexivity.
  - destruct (decide (lane = n)) as [Heq|Hne].
    + rewrite filter_cons_True by exact Heq. cbn [map snd].
      rewrite IH. reflexivity.
    + rewrite filter_cons_False by exact Hne. exact IH.
Qed.

(** Lane by lane: the loop started at [lane] makes for lane [n] the
    calls of the entry [n - lane] places on, and none for a lane it has
    passed or never reaches. *)
Lemma calls_of_lane_from (v : list per_thread_info) (lane n : nat) :
  calls_of_lane n (calls_from lane v [])
  = if decide (lane <= n)%nat then
      match v !! (n - lane)%nat with
      | Some t => lane_calls t
      | None => []
      end
    else [].
Proof.
  revert lane. induction v as [|t v IH]; intros lane.
  - cbn. destruct (decide (lane <= n)%nat); reflexivity.
  - rewrite calls_from_cons, calls_of_lane_app, calls_of_lane_own, IH.
    destruct (decide (lane = n)) as [->|Hne].
    + rewrite Nat.sub_diag. cbn.
      destruct (decide (S n <= n)%nat); [lia|].
      destruct (decide (n <= n)%nat); [|lia].
      apply app_nil_r.
    + cbn [app].
      destruct (decide (S lane <= n)%nat), (decide (lane <= n)%nat);
        try lia; try reflexivity.
      replace (n - lane)%nat with (S (n - S lane)) by lia. reflexivity.
Qed.

Lemma calls_of_lane_elem (n : nat) (c : call) (trace : list (nat * call)) :
  In (n, c) trace -> In c (calls_of_lane n trace).
Proof.
  intros Hin. unfold calls_of_lane.
  apply (in_map snd _ (n, c)). apply list_elem_of_In.
  apply list_elem_of_filter. split; [reflexivity|].
  apply list_elem_of_In, Hin.
Qed.

(** C4, as the code has it.  On an atomic, non-empty instruction in
    which every entry with a thread has a function, [do_atomic()] runs
    to its end, and lane by lane the calls it makes are: one call of the
    stored function on the stored instruction and thread when the lane's
    thread is not null, none when it is null.  Every call of the trace
    is such a call, and the trace is the same whatever the active
    mask. *)
Theorem do_atomic_calls_each_thread_once (w : warp_inst_t) :
  isatomic w = true -> empty w = false ->
  callable (m_per_scalar_thread w) ->
  exists trace,
    do_atomic w = Some trace
    /\ (forall n : nat,
          calls_of_lane n trace
          = match m_per_scalar_thread w !! n with
            | Some t =>
                if thread (callback t) =? NULL then []
                else [Call (function (callback t)) (instruction (callback t))
                           (thread (callback t))]
            | None => []
            end)
    /\ (forall (n : nat) (c : call),
          In (n, c) trace ->
          exists t, m_per_scalar_thread w !! n = Some t
                    /\ thread (callback t) <> NULL
                    /\ c = Call (function (callback t)) (instruction (callback t))
                                (thread (callback t)))
    /\ (forall w' : warp_inst_t,
          m_per_scalar_thread w' = m_per_scalar_thread w ->
          isatomic w' = true -> empty w' = false ->
          do_atomic w' = Some trace).
Proof.
  unfold isatomic, empty, do_atomic. intros -> -> Hok. cbn.
  rewrite (do_atomic_from_callable _ 0 Hok).
  eexists. split; [reflexivity|].
  assert (Hlanes : forall n : nat,
    calls_of_lane n (calls_from 0 (m_per_scalar_thread w) [])
    = match m_per_scalar_thread w !! n with
      | Some t => lane_calls t
      | None => []
      end).
  { intros n. rewrite calls_of_lane_from, Nat.sub_0_r.
    destruct (decide (0 <= n)%nat); [reflexivity | lia]. }
  split; [exact Hlanes|]. split.
  - intros n c Hin. apply calls_of_lane_elem in Hin. rewrite Hlanes in Hin.
    destruct (m_per_scalar_thread w !! n) as [t|]; [|destruct Hin].
    exists t. split; [reflexivity|]. unfold lane_calls in Hin.
    destruct (Z.eqb_spec (thread (callback t)) NULL) as [|Hthr]; [destruct Hin|].
    destruct Hin as [<-|[]]. split; [exact Hthr | reflexivity].
  - intros w' -> -> ->. cbn. apply do_atomic_from_callable, Hok.
Qed.

Lemma sample_atomic_callable : callable (m_per_scalar_thread sample_atomic).
Proof. apply callable_existsb. reflexivity. Qed.

Lemma do_atomic_calls_each_thread_once_witness :
  isatomic sample_atomic = true /\ empty sample_atomic = false
  /\ active sample_atomic 1 = Some false
  /\ active sample_atomic 2 = Some true
  /\ exists trace,
       do_atomic sample_atomic = Some trace
       /\ calls_of_lane 0 trace = [Call 1000 2000 3000]
       /\ calls_of_lane 1 trace = [Call 1001 2000 3001]
       /\ calls_of_lane 2 trace = []
       /\ calls_of_lane 3 trace = [].
Proof.
  do 4 (split; [reflexivity|]).
  destruct (do_atomic_calls_each_thread_once sample_atomic eq_refl eq_refl
              sample_atomic_callable)
    as (trace & Hrun & Hlanes & _).
  exists trace. split; [exact Hrun|].
  rewrite !Hlanes. repeat split.
Defined.

(** C4, as the claim has it, fails: a fresh instruction of width 4,
    issued on lanes 0 and 1, with [add_callback(0, NULL, inst, thread)]
    and [add_callback(1, function, inst, thread)], is atomic and not
    empty and holds a callback with a thread on lane 1; [do_atomic()]
    calls through the null function of lane 0 and never calls lane 1. *)
Lemma do_atomic_null_function_no_result :
  (w0 ← construct (blank_storage 0) 4;
   w1 ← issue w0 3 7 100;
   w2 ← add_callback w1 0 NULL 2000 3000;
   w3 ← add_callback w2 1 1001 2000 3001;
   Some (isatomic w3, empty w3, has_callback w3 1,
         thread <$> (callback <$> m_per_scalar_thread w3 !! 1%nat),
         do_atomic w3))
  = Some (true, false, Some true, Some 3001, None).
Proof. reflexivity. Qed.

(** On an atomic, non-empty instruction [do_atomic()] returns exactly
    when every entry with a thread has a function. *)
Lemma do_atomic_returns_iff (w : warp_inst_t) :
  isatomic w = true -> empty w = false ->
  (is_Some (do_atomic w) <-> callable (m_per_scalar_thread w)).
Proof.
  unfold isatomic, empty, do_atomic. intros -> ->. cbn.
  rewrite do_atomic_from_run, callable_existsb.
  destruct (existsb null_call (m_per_scalar_thread w)); split.
  - intros [x Hx]. discriminate Hx.
  - discriminate.
  - reflexivity.
  - intros _. eexists. reflexivity.
Qed.

(** [do_atomic] on an instruction that is not atomic, or is empty,
    fails its assertion. *)
Lemma do_atomic_asserts (w : warp_inst_t) :
  isatomic w = false \/ empty w = true -> do_atomic w = None.
Proof.
  unfold isatomic, empty, do_atomic. intros [-> | ->]; [reflexivity|].
  rewrite andb_false_r. reflexivity.
Qed.

End WarpFacts.

(** * Further properties of the kernel work enumerator *)

Module KernelLaws.

Import Kernel.

(** Digits of a mixed-radix number are unique. *)
Lemma radix_unique (b r1 q1 r2 q2 : Z) :
  0 <= r1 < b -> 0 <= r2 < b -> r1 + b * q1 = r2 + b * q2 ->
  r1 = r2 /\ q1 = q2.
Proof.
  intros Hr1 Hr2 Heq.
  assert (Hq : q1 = q2) by nia.
  subst q2. split; [lia | reflexivity].
Qed.

(** Inside a block of fewer than 2^32 threads nothing wraps. *)
Lemma get_next_thread_id_exact (k : kernel_info_t) :
  0 <= x (m_next_tid k) -> 0 <= y (m_next_tid k) -> 0 <= z (m_next_tid k) ->
  tid_in_block k ->
  x (m_block_dim k) * y (m_block_dim k) * z (m_block_dim k) < 2 ^ 32 ->
  get_next_thread_id k = linear_index k.
Proof.
  intros Hx Hy Hz Hin Hfit.
  pose proof (KernelFacts.linear_index_in_block k Hx Hy Hz Hin) as Hidx.
  rewrite KernelFacts.get_next_thread_id_mod. apply Z.mod_small.
  change UINT_MODULUS with (2 ^ 32). lia.
Qed.

(** X1.  For a next thread inside a block of fewer than 2^32 threads,
    [get_next_thread_id()] is the exact flat index and lies below
    [threads_per_cta()]. *)
Theorem get_next_thread_id_below_threads_per_cta (k : kernel_info_t) :
  0 <= x (m_next_tid k) -> 0 <= y (m_next_tid k) -> 0 <= z (m_next_tid k) ->
  tid_in_block k ->
  x (m_block_dim k) * y (m_block_dim k) * z (m_block_dim k) < 2 ^ 32 ->
  get_next_thread_id k = linear_index k
  /\ 0 <= get_next_thread_id k < threads_per_cta k.
Proof.
  intros Hx Hy Hz Hin Hfit.
  pose proof (KernelFacts.linear_index_in_block k Hx Hy Hz Hin) as Hidx.
  pose proof (get_next_thread_id_exact k Hx Hy Hz Hin Hfit) as Hid.
  split; [exact Hid|]. rewrite Hid.
  unfold threads_per_cta. rewrite wrap32_product3, Z.mod_small.
  - exact Hidx.
  - change UINT_MODULUS with (2 ^ 32). lia.
Qed.

Lemma get_next_thread_id_below_threads_per_cta_witness :
  get_next_thread_id (at_thread (Dim3 4 4 2) (Dim3 3 3 1)) = 31
  /\ threads_per_cta (at_thread (Dim3 4 4 2) (Dim3 3 3 1)) = 32
  /\ 0 <= get_next_thread_id (at_thread (Dim3 4 4 2) (Dim3 3 3 1))
       < threads_per_cta (at_thread (Dim3 4 4 2) (Dim3 3 3 1)).
Proof.
  split; [reflexivity|]. split; [reflexivity|].
  apply (get_next_thread_id_below_threads_per_cta
           (at_thread (Dim3 4 4 2) (Dim3 3 3 1))); cbn; try lia.
  unfold tid_in_block; cbn; lia.
Defined.

(** X2.  Within one block of fewer than 2^32 threads, two thread
    coordinates inside the block with the same [get_next_thread_id()]
    are the same coordinate. *)
Theorem get_next_thread_id_injective (k1 k2 : kernel_info_t) :
  m_block_dim k1 = m_block_dim k2 ->
  0 <= x (m_next_tid k1) -> 0 <= y (m_next_tid k1) -> 0 <= z (m_next_tid k1) ->
  0 <= x (m_next_tid k2) -> 0 <= y (m_next_tid k2) -> 0 <= z (m_next_tid k2) ->
  tid_in_block k1 -> tid_in_block k2 ->
  x (m_block_dim k1) * y (m_block_dim k1) * z (m_block_dim k1) < 2 ^ 32 ->
  get_next_thread_id k1 = get_next_thread_id k2 ->
  m_next_tid k1 = m_next_tid k2.
Proof.
  intros Hdim Hx1 Hy1 Hz1 Hx2 Hy2 Hz2 Hin1 Hin2 Hfit Hid.
  pose proof (get_next_thread_id_exact k1 Hx1 Hy1 Hz1 Hin1 Hfit) as E1.
  assert (E2 : get_next_thread_id k2 = linear_index k2).
  { apply get_next_thread_id_exact; try assumption. rewrite <- Hdim. exact Hfit. }
  rewrite E1, E2 in Hid. clear E1 E2.
  unfold linear_index, tid_in_block in *. rewrite <- Hdim in *.
  destruct (m_next_tid k1) as [x1 y1 z1], (m_next_tid k2) as [x2 y2 z2].
  destruct (m_block_dim k1) as [bx By bz]. cbn in *.
  destruct Hin1 as (Hbx1 & Hby1 & _), Hin2 as (Hbx2 & Hby2 & _).
  destruct (radix_unique (bx * By) (x1 + bx * y1) z1 (x2 + bx * y2) z2)
    as [Hlow ->]; [nia | nia | lia |].
  destruct (radix_unique bx x1 y1 x2 y2) as [-> ->]; [lia | lia | lia |].
  reflexivity.
Qed.

Lemma get_next_thread_id_injective_witness :
  get_next_thread_id (at_thread (Dim3 4 4 2) (Dim3 3 3 1)) = 31
  /\ get_next_thread_id
       (KernelInfo false 5 (Dim3 9 9 9) (Dim3 4 4 2) (Dim3 1 2 3) (Dim3 3 3 1)) = 31
  /\ m_next_tid (at_thread (Dim3 4 4 2) (Dim3 3 3 1))
     = m_next_tid
         (KernelInfo false 5 (Dim3 9 9 9) (Dim3 4 4 2) (Dim3 1 2 3) (Dim3 3 3 1)).
Proof.
  split; [reflexivity|]. split; [reflexivity|].
  apply (get_next_thread_id_injective
           (at_thread (Dim3 4 4 2) (Dim3 3 3 1))
           (KernelInfo false 5 (Dim3 9 9 9) (Dim3 4 4 2) (Dim3 1 2 3) (Dim3 3 3 1)));
    cbn; try lia; try reflexivity; unfold tid_in_block; cbn; lia.
Defined.

(** X3.  Where [more_threads_in_cta()] is right.  At the first thread
    (0,0,0) it answers as the component-wise test does.  In a block whose
    z extent does not exceed its x extent it does so for every next
    thread whose x coordinate is below the x extent.  In a block with
    0 < bx < bz and 0 < by, the thread (0,0,bx) lies inside the block and
    the answer is false. *)
Theorem more_threads_in_cta_agreement (k : kernel_info_t) :
  (m_next_tid k = Dim3 0 0 0 ->
     (more_threads_in_cta k = true <-> tid_in_block k))
  /\ (z (m_block_dim k) <= x (m_block_dim k) ->
      x (m_next_tid k) < x (m_block_dim k) ->
      (more_threads_in_cta k = true <-> tid_in_block k))
  /\ (0 < x (m_block_dim k) < z (m_block_dim k) -> 0 < y (m_block_dim k) ->
      tid_in_block (at_thread (m_block_dim k) (Dim3 0 0 (x (m_block_dim k))))
      /\ more_threads_in_cta
           (at_thread (m_block_dim k) (Dim3 0 0 (x (m_block_dim k)))) = false).
Proof.
  rewrite KernelFacts.more_threads_in_cta_spec. unfold tid_in_block.
  split; [|split].
  - intros ->. cbn. tauto.
  - intros Hdeep Hx. lia.
  - intros Hxz Hy. cbn. split; [lia|].
    unfold more_threads_in_cta; cbn.
    rewrite Z.ltb_irrefl, andb_false_r. reflexivity.
Qed.

(** X4.  Right after binding, with non-negative grid extents,
    [no_more_ctas_to_run()] holds exactly when some grid extent is 0,
    and [num_blocks()] is then 0.  The converse does not hold: a grid of
    65536 x 65536 x 1 has blocks to run and [num_blocks()] = 0. *)
Theorem no_more_ctas_to_run_after_bind (grid block : dim3) (entry : Z) :
  0 <= x grid -> 0 <= y grid -> 0 <= z grid ->
  (no_more_ctas_to_run (bind grid block entry) = true
     <-> x grid = 0 \/ y grid = 0 \/ z grid = 0)
  /\ (no_more_ctas_to_run (bind grid block entry) = true ->
      num_blocks (bind grid block entry) = 0)
  /\ no_more_ctas_to_run (bind (Dim3 65536 65536 1) block entry) = false
  /\ num_blocks (bind (Dim3 65536 65536 1) block entry) = 0.
Proof.
  intros Hx Hy Hz.
  assert (Hiff : no_more_ctas_to_run (bind grid block entry) = true
                 <-> x grid = 0 \/ y grid = 0 \/ z grid = 0).
  { unfold no_more_ctas_to_run; cbn.
    rewrite !orb_true_iff, !Z.leb_le. lia. }
  split; [exact Hiff|]. split; [|split; reflexivity].
  intros Hdone. apply Hiff in Hdone.
  unfold num_blocks; cbn. rewrite wrap32_product3.
  destruct Hdone as [-> | [-> | ->]];
    rewrite ?Z.mul_0_l, ?Z.mul_0_r; reflexivity.
Qed.

Lemma no_more_ctas_to_run_after_bind_witness :
  no_more_ctas_to_run (bind (Dim3 2 0 3) (Dim3 1 1 1) NULL) = true
  /\ num_blocks (bind (Dim3 2 0 3) (Dim3 1 1 1) NULL) = 0.
Proof.
  destruct (no_more_ctas_to_run_after_bind (Dim3 2 0 3) (Dim3 1 1 1) NULL)
    as (Hiff & Hzero & _); cbn; try lia.
  assert (Hdone : no_more_ctas_to_run (bind (Dim3 2 0 3) (Dim3 1 1 1) NULL) = true)
    by (apply Hiff; cbn; lia).
  split; [exact Hdone | exact (Hzero Hdone)].
Defined.

End KernelLaws.

(** * Further properties of memory spaces and of the scalar instruction *)

Module MemorySpaceLaws.

Import MemorySpace.

(** X5.  [<] is a strict total order that agrees with [==]: it is
    irreflexive and transitive, and of [a < b], [a == b] and [b < a]
    exactly one holds; [!=] is the negation of [==], and [==] holds of
    equal values only. *)
Theorem memory_space_strict_total_order (a b c : memory_space_t) :
  ltb a a = false
  /\ (ltb a b = true -> ltb b c = true -> ltb a c = true)
  /\ (ltb a b = true /\ eqb a b = false /\ ltb b a = false
      \/ ltb a b = false /\ eqb a b = true /\ ltb b a = false
      \/ ltb a b = false /\ eqb a b = false /\ ltb b a = true)
  /\ neqb a b = negb (eqb a b)
  /\ (eqb a b = true <-> a = b).
Proof.
  split; [apply MemorySpaceFacts.ltb_irrefl|].
  split; [apply MemorySpaceFacts.ltb_trans|].
  split; [|split; [reflexivity | apply MemorySpaceFacts.eqb_eq]].
  pose proof (MemorySpaceFacts.ltb_true_iff a b) as Hab.
  pose proof (MemorySpaceFacts.ltb_true_iff b a) as Hba.
  pose proof (MemorySpaceFacts.eqb_true_iff a b) as Heq.
  pose proof (MemorySpaceFacts.ltb_total a b) as Htot.
  rewrite <- MemorySpaceFacts.eqb_eq in Htot.
  destruct (ltb a b), (eqb a b), (ltb b a);
    try (left; repeat split; reflexivity);
    try (right; left; repeat split; reflexivity);
    try (right; right; repeat split; reflexivity);
    exfalso.
  all: try (destruct (proj1 Hab eq_refl) as [H1 | [H1 H1']];
            destruct (proj1 Hba eq_refl) as [H2 | [H2 H2']];
            try lia; try (rewrite H1 in H2; lia); try (rewrite H2 in H1; lia)).
  all: try (destruct (proj1 Heq eq_refl) as [Ht Hb];
            first [ destruct (proj1 Hab eq_refl) as [H1 | [_ H1]]
                  | destruct (proj1 Hba eq_refl) as [H1 | [_ H1]] ];
            try (rewrite Ht in H1; lia); lia).
  all: destruct Htot as [H | [H | H]]; discriminate H.
Qed.

End MemorySpaceLaws.

Module InstLaws.

Import Inst.

Lemma fill_arch_reg_all (regs : list Z) :
  length regs = MAX_REG_OPERANDS ->
  fill_arch_reg regs = replicate MAX_REG_OPERANDS (-1).
Proof.
  intros Hlen.
  destruct regs as [|r0 [|r1 [|r2 [|r3 [|r4 [|r5 [|r6 [|r7 [|r8 l]]]]]]]]];
    try discriminate Hlen.
  reflexivity.
Qed.

(** X6.  [inst_t()] makes the placeholder instruction: not decoded, pc
    at the all-ones sentinel, opcode [NO_OP], every architectural
    register number -1, vector flags, cycles and size 0, and the
    undefined memory space with bank 0.  It assigns nothing to
    [memory_op], [pred], [ar1], [ar2] and [data_size], which hold after
    the constructor what the storage held before. *)
Theorem construct_makes_placeholder (raw : inst_t) :
  length (arch_reg raw) = MAX_REG_OPERANDS ->
  valid (construct raw) = false
  /\ pc (construct raw) = 2 ^ 32 - 1
  /\ op (construct raw) = NO_OP
  /\ (forall i : nat, (i < MAX_REG_OPERANDS)%nat ->
        arch_reg (construct raw) !! i = Some (-1))
  /\ length (arch_reg (construct raw)) = MAX_REG_OPERANDS
  /\ is_vectorin (construct raw) = 0 /\ is_vectorout (construct raw) = 0
  /\ cycles (construct raw) = 0 /\ isize (construct raw) = 0
  /\ space (construct raw) = MemorySpace.of_type MemorySpace.undefined_space
  /\ memory_op (construct raw) = memory_op raw
  /\ pred (construct raw) = pred raw
  /\ ar1 (construct raw) = ar1 raw /\ ar2 (construct raw) = ar2 raw
  /\ data_size (construct raw) = data_size raw.
Proof.
  intros Hlen. cbn [construct valid m_decoded pc op arch_reg is_vectorin
    is_vectorout cycles isize space memory_op pred ar1 ar2 data_size].
  rewrite fill_arch_reg_all by exact Hlen.
  repeat split.
  intros i Hi. apply lookup_replicate_2. exact Hi.
Qed.

Lemma construct_makes_placeholder_witness :
  arch_reg (construct (filled_storage Byte.xff 7)) !! 7%nat = Some (-1)
  /\ pred (construct (filled_storage Byte.xff 7)) = 7
  /\ valid (filled_storage Byte.xff 7) = true
  /\ valid (construct (filled_storage Byte.xff 7)) = false.
Proof.
  destruct (construct_makes_placeholder (filled_storage Byte.xff 7) eq_refl)
    as (Hvalid & _ & _ & Hregs & _ & _ & _ & _ & _ & _ & _ & Hpred & _).
  split; [apply Hregs; unfold MAX_REG_OPERANDS; lia|].
  split; [exact Hpred|]. split; [reflexivity | exact Hvalid].
Defined.

End InstLaws.

(** * Further properties of the warp instruction *)

Module WarpLaws.

Import Inst Warp.

(** *** What each modifier writes *)

Lemma bitset_in_range_true (i : Z) :
  0 <= i < MAX_WARP_SIZE -> bitset_in_range i = true.
Proof.
  intros Hi. unfold bitset_in_range. apply andb_true_iff.
  split; [apply Z.leb_le | apply Z.ltb_lt]; lia.
Qed.

Lemma issue_unfold (w : warp_inst_t) (mask id cycle : Z) :
  well_formed w ->
  exists bits,
    issue_lanes (Z.to_nat (m_warp_size w)) mask (warp_active_mask w) = Some bits
    /\ (forall j, 0 <= j ->
          Z.testbit bits j
          = Z.testbit (warp_active_mask w) j
            || ((j <? m_warp_size w) && Z.testbit mask j))
    /\ issue w mask id cycle
       = Some {| base := base w; m_empty := false; issue_cycle := cycle;
                 m_isatomic := m_isatomic w; m_warp_id := id;
                 m_warp_size := m_warp_size w; warp_active_mask := bits;
                 m_per_scalar_thread_valid := m_per_scalar_thread_valid w;
                 m_per_scalar_thread := m_per_scalar_thread w |}.
Proof.
  intros [Hsize _].
  destruct (WarpFacts.issue_lanes_bits (Z.to_nat (m_warp_size w)) mask
              (warp_active_mask w)) as (bits & Hrun & Hbits); [lia|].
  exists bits. split; [exact Hrun|]. split.
  - intros j Hj. rewrite Hbits by exact Hj.
    rewrite Z2Nat.id by lia. reflexivity.
  - unfold issue. rewrite Hrun. reflexivity.
Qed.

Lemma allocated_length' (w : warp_inst_t) :
  well_formed w -> length (allocated w) = Z.to_nat (m_warp_size w).
Proof. apply WarpFacts.allocated_length. Qed.

Lemma set_addr_unfold (w : warp_inst_t) (n a : Z) :
  well_formed w -> 0 <= n < m_warp_size w ->
  exists t,
    allocated w !! Z.to_nat n = Some t
    /\ set_addr w n a
       = Some {| base := base w; m_empty := m_empty w;
                 issue_cycle := issue_cycle w; m_isatomic := m_isatomic w;
                 m_warp_id := m_warp_id w; m_warp_size := m_warp_size w;
                 warp_active_mask := warp_active_mask w;
                 m_per_scalar_thread_valid := true;
                 m_per_scalar_thread :=
                   <[Z.to_nat n := {| callback := callback t; memreqaddr := a;
                                      cache_miss := cache_miss t |}]> (allocated w) |}.
Proof.
  intros Hwf Hn. pose proof (allocated_length' w Hwf) as Hlen.
  assert (Hin : 0 <= n < Z.of_nat (length (allocated w))) by lia.
  destruct (WarpFacts.vector_at_inside _ n Hin) as [t Ht].
  exists t. split.
  - unfold vector_at in Ht. destruct (0 <=? n); [exact Ht | discriminate Ht].
  - unfold set_addr. fold (allocated w). rewrite Ht. cbn.
    rewrite WarpFacts.vector_store_inside by exact Hin. reflexivity.
Qed.

Lemma add_callback_unfold (w : warp_inst_t) (n fn inst thr : Z) :
  well_formed w -> 0 <= n < m_warp_size w ->
  exists t,
    allocated w !! Z.to_nat n = Some t
    /\ add_callback w n fn inst thr
       = Some {| base := base w; m_empty := m_empty w;
                 issue_cycle := issue_cycle w;
                 m_isatomic :=
                   if m_per_scalar_thread_valid w then m_isatomic w else true;
                 m_warp_id := m_warp_id w; m_warp_size := m_warp_size w;
                 warp_active_mask := warp_active_mask w;
                 m_per_scalar_thread_valid := true;
                 m_per_scalar_thread :=
                   <[Z.to_nat n := {| callback := DramCallback fn inst thr;
                                      memreqaddr := memreqaddr t;
                                      cache_miss := cache_miss t |}]> (allocated w) |}.
Proof.
  intros Hwf Hn. pose proof (allocated_length' w Hwf) as Hlen.
  assert (Hin : 0 <= n < Z.of_nat (length (allocated w))) by lia.
  destruct (WarpFacts.vector_at_inside _ n Hin) as [t Ht].
  exists t. split.
  - unfold vector_at in Ht. destruct (0 <=? n); [exact Ht | discriminate Ht].
  - unfold add_callback. fold (allocated w). rewrite Ht. cbn.
    rewrite WarpFacts.vector_store_inside by exact Hin. reflexivity.
Qed.

(** A modifier that returned did so on a lane inside the vector. *)
Lemma vector_at_Some_inside (v : list per_thread_info) (n : Z) (t : per_thread_info) :
  vector_at v n = Some t -> 0 <= n < Z.of_nat (length v).
Proof.
  unfold vector_at. destruct (Z.leb_spec 0 n) as [Hn|]; [|discriminate].
  intros Hlook. apply lookup_lt_Some in Hlook. lia.
Qed.

Lemma set_addr_Some_lane (w : warp_inst_t) (n a : Z) (w1 : warp_inst_t) :
  well_formed w -> set_addr w n a = Some w1 -> 0 <= n < m_warp_size w.
Proof.
  intros Hwf. pose proof (allocated_length' w Hwf) as Hlen.
  destruct Hwf as [Hsize _].
  unfold set_addr. fold (allocated w).
  destruct (vector_at (allocated w) n) as [t|] eqn:Ht; [|discriminate].
  intros _. apply vector_at_Some_inside in Ht. lia.
Qed.

Lemma add_callback_Some_lane (w : warp_inst_t) (n fn inst thr : Z) (w1 : warp_inst_t) :
  well_formed w -> add_callback w n fn inst thr = Some w1 -> 0 <= n < m_warp_size w.
Proof.
  intros Hwf. pose proof (allocated_length' w Hwf) as Hlen.
  destruct Hwf as [Hsize _].
  unfold add_callback. fold (allocated w).
  destruct (vector_at (allocated w) n) as [t|] eqn:Ht; [|discriminate].
  intros _. apply vector_at_Some_inside in Ht. lia.
Qed.

(** *** The invariant *)

(** What the constructor establishes and every modifier keeps, by
    induction on how the instruction was built. *)
Lemma built_inv (w : warp_inst_t) :
  built w ->
  well_formed w
  /\ (m_per_scalar_thread_valid w = false -> m_per_scalar_thread w = [])
  /\ (isatomic w = true -> m_per_scalar_thread_valid w = true)
  /\ (forall i, m_warp_size w <= i -> Z.testbit (warp_active_mask w) i = false).
Proof.
  induction 1 as [raw W w HW Hc | w Hb IH | w mask id cycle w1 Hb IH Hi
                 | w n a w1 Hb IH Hs | w n fn inst thr w1 Hb IH Ha].
  - destruct (WarpFacts.construct_well_formed raw W w HW Hc)
      as (Hwf & _ & Hat & _ & Hmask & Hvalid).
    split; [exact Hwf|]. split; [|split].
    + intros _. unfold construct in Hc.
      destruct (W <=? MAX_WARP_SIZE); [|discriminate].
      injection Hc as <-. reflexivity.
    + rewrite Hat. discriminate.
    + intros i _. rewrite Hmask. apply Z.bits_0.
  - exact IH.
  - destruct IH as (Hwf & Hnil & Hat & Hhigh).
    destruct (issue_unfold w mask id cycle Hwf) as (bits & _ & Hbits & Heq).
    rewrite Heq in Hi. injection Hi as <-. cbn.
    repeat split; try apply Hwf; try assumption.
    intros i HiW. destruct Hwf as [Hsize _].
    rewrite Hbits by lia. rewrite Hhigh by exact HiW.
    destruct (Z.ltb_spec i (m_warp_size w)); [lia | reflexivity].
  - destruct IH as (Hwf & Hnil & Hat & Hhigh).
    pose proof (set_addr_Some_lane w n a w1 Hwf Hs) as Hn.
    pose proof (WarpFacts.set_addr_well_formed w n a w1 Hwf Hs) as Hwf1.
    destruct (set_addr_unfold w n a Hwf Hn) as (t & _ & Heq).
    rewrite Heq in Hs. injection Hs as <-. cbn in *.
    repeat split; try apply Hwf1; try assumption; try discriminate.
  - destruct IH as (Hwf & Hnil & Hat & Hhigh).
    pose proof (add_callback_Some_lane w n fn inst thr w1 Hwf Ha) as Hn.
    pose proof (WarpFacts.add_callback_well_formed w n fn inst thr w1 Hwf Ha) as Hwf1.
    destruct (add_callback_unfold w n fn inst thr Hwf Hn) as (t & _ & Heq).
    rewrite Heq in Ha. injection Ha as <-. cbn in *.
    repeat split; try apply Hwf1; try assumption; try discriminate.
Qed.

Lemma fresh_built (W : Z) : 0 <= W <= MAX_WARP_SIZE -> built (fresh W).
Proof.
  intros HW. apply (built_construct (blank_storage 0) W); [lia|].
  unfold construct. destruct (Z.leb_spec W MAX_WARP_SIZE); [reflexivity | lia].
Qed.



(** *** Construction *)

(** X8.  [warp_inst_t(W)] fails its assertion exactly when [W] exceeds
    32.  The instruction it makes is empty and not atomic; [warp_id()],
    [get_addr(n)] and [do_atomic()] fail their assertions on it, and
    for every lane of the bitset [active] and [has_callback] answer
    false. *)
Theorem construct_gives_empty_instruction (raw : warp_inst_t) (W : Z) :
  (construct raw W = None <-> MAX_WARP_SIZE < W)
  /\ (forall w,
        construct raw W = Some w ->
        empty w = true /\ isatomic w = false /\ m_warp_size w = W
        /\ warp_id w = None /\ do_atomic w = None
        /\ (forall n, get_addr w n = None)
        /\ (forall n, 0 <= n < MAX_WARP_SIZE ->
              active w n = Some false /\ has_callback w n = Some false)).
Proof.
  unfold construct.
  destruct (Z.leb_spec W MAX_WARP_SIZE) as [Hle|Hgt].
  - split; [split; [discriminate | lia]|].
    intros w [= <-]. do 5 (split; [reflexivity|]).
    split; [reflexivity|].
    intros n Hn.
    unfold active, has_callback, bitset_test, bitset_index; cbn.
    rewrite bitset_in_range_true by exact Hn. cbn.
    unfold bitset_empty. rewrite Z.bits_0. split; reflexivity.
  - split; [split; [lia | reflexivity] | discriminate].
Qed.

(** *** [issue] *)

(** X9.  On a well-formed instruction [issue(mask, id, cycle)] returns;
    afterwards the instruction is not empty, [warp_id()] is [id], and a
    lane of the bitset is active when it was active before or when it
    lies below the width and its bit of [mask] is set: no lane is ever
    deactivated, and bits of [mask] at or above the width are ignored.
    The atomic flag and the per-lane array are untouched. *)
Theorem issue_adds_mask_lanes (w : warp_inst_t) (mask id cycle : Z) :
  well_formed w ->
  exists w1,
    issue w mask id cycle = Some w1
    /\ empty w1 = false
    /\ warp_id w1 = Some id
    /\ isatomic w1 = isatomic w
    /\ m_per_scalar_thread_valid w1 = m_per_scalar_thread_valid w
    /\ m_per_scalar_thread w1 = m_per_scalar_thread w
    /\ forall i, 0 <= i < MAX_WARP_SIZE ->
         active w1 i
         = Some (Z.testbit (warp_active_mask w) i
                 || ((i <? m_warp_size w) && Z.testbit mask i)).
Proof.
  intros Hwf.
  destruct (issue_unfold w mask id cycle Hwf) as (bits & _ & Hbits & Heq).
  eexists. split; [exact Heq|]. do 5 (split; [reflexivity|]).
  intros i Hi. unfold active, bitset_test; cbn.
  rewrite bitset_in_range_true by exact Hi.
  rewrite Hbits by lia. reflexivity.
Qed.

Lemma issue_adds_mask_lanes_witness :
  well_formed sample_issued
  /\ exists w1,
       issue sample_issued 26 9 200 = Some w1
       /\ warp_id w1 = Some 9
       /\ active w1 0 = Some true
       /\ active w1 1 = Some true
       /\ active w1 3 = Some true
       /\ active w1 4 = Some false.
Proof.
  split; [exact WarpFacts.sample_issued_well_formed|].
  destruct (issue_adds_mask_lanes sample_issued 26 9 200
              WarpFacts.sample_issued_well_formed)
    as (w1 & Hrun & _ & Hid & _ & _ & _ & Hact).
  exists w1. split; [exact Hrun|]. split; [exact Hid|].
  rewrite !Hact by (unfold MAX_WARP_SIZE; lia).
  repeat split.
Defined.

(** X10.  Issued on a freshly constructed instruction of width [W],
    [issue(mask, id, cycle)] makes lane [i] active exactly when [i] is
    below [W] and bit [i] of [mask] is set. *)
Theorem issue_on_fresh_instruction
    (raw : warp_inst_t) (W : Z) (w0 : warp_inst_t) (mask id cycle : Z) :
  0 <= W -> construct raw W = Some w0 ->
  exists w1,
    issue w0 mask id cycle = Some w1
    /\ forall i, 0 <= i < MAX_WARP_SIZE ->
         active w1 i = Some ((i <? W) && Z.testbit mask i).
Proof.
  intros HW Hc.
  destruct (WarpFacts.construct_well_formed raw W w0 HW Hc)
    as (Hwf & _ & _ & Hsize & Hmask & _).
  destruct (issue_unfold w0 mask id cycle Hwf) as (bits & _ & Hbits & Heq).
  eexists. split; [exact Heq|]. intros i Hi.
  unfold active, bitset_test; cbn.
  rewrite bitset_in_range_true by exact Hi.
  rewrite Hbits by lia. rewrite Hmask, Hsize.
  unfold bitset_empty. rewrite Z.bits_0. reflexivity.
Qed.

Lemma issue_on_fresh_instruction_witness :
  construct (blank_storage 0) 4 = Some (fresh 4)
  /\ exists w1,
       issue (fresh 4) 21 7 100 = Some w1
       /\ active w1 0 = Some true /\ active w1 1 = Some false
       /\ active w1 2 = Some true /\ active w1 4 = Some false.
Proof.
  split; [reflexivity|].
  destruct (issue_on_fresh_instruction (blank_storage 0) 4 (fresh 4) 21 7 100)
    as (w1 & Hrun & Hact); [lia | reflexivity |].
  exists w1. split; [exact Hrun|].
  rewrite !Hact by (unfold MAX_WARP_SIZE; lia). repeat split.
Defined.

(** X11.  Reusing a slot: [issue(m1, ..)], [clear()], [issue(m2, ..)]
    leaves a lane active when it was active at the start or when it is
    below the width and its bit is set in [m1] or in [m2]; [clear()]
    forgets no lane.  [warp_id()] is that of the second issue. *)
Theorem issue_clear_issue_accumulates
    (w : warp_inst_t) (m1 id1 cycle1 m2 id2 cycle2 : Z) :
  well_formed w ->
  exists w1 w2,
    issue w m1 id1 cycle1 = Some w1
    /\ warp_id (clear w1) = None
    /\ issue (clear w1) m2 id2 cycle2 = Some w2
    /\ warp_id w2 = Some id2
    /\ forall i, 0 <= i < MAX_WARP_SIZE ->
         active w2 i
         = Some (Z.testbit (warp_active_mask w) i
                 || ((i <? m_warp_size w)
                     && (Z.testbit m1 i || Z.testbit m2 i))).
Proof.
  intros Hwf.
  destruct (issue_unfold w m1 id1 cycle1 Hwf) as (bits1 & _ & Hbits1 & Heq1).
  eexists. 
  assert (Hwf1 : well_formed (clear
    {| base := base w; m_empty := false; issue_cycle := cycle1;
       m_isatomic := m_isatomic w; m_warp_id := id1;
       m_warp_size := m_warp_size w; warp_active_mask := bits1;
       m_per_scalar_thread_valid := m_per_scalar_thread_valid w;
       m_per_scalar_thread := m_per_scalar_thread w |})) by exact Hwf.
  destruct (issue_unfold _ m2 id2 cycle2 Hwf1) as (bits2 & _ & Hbits2 & Heq2).
  eexists. split; [exact Heq1|]. split; [reflexivity|].
  split; [exact Heq2|]. split; [reflexivity|].
  intros i Hi. unfold active, bitset_test; cbn.
  rewrite bitset_in_range_true by exact Hi.
  rewrite Hbits2 by lia. cbn.
  rewrite Hbits1 by lia.
  destruct (Z.testbit (warp_active_mask w) i), (i <? m_warp_size w),
    (Z.testbit m1 i), (Z.testbit m2 i); reflexivity.
Qed.

Lemma issue_clear_issue_accumulates_witness :
  well_formed (fresh 4)
  /\ exists w1 w2,
       issue (fresh 4) 1 7 100 = Some w1
       /\ issue (clear w1) 4 8 200 = Some w2
       /\ active w2 0 = Some true /\ active w2 2 = Some true
       /\ active w2 1 = Some false.
Proof.
  assert (Hwf : well_formed (fresh 4)).
  { split; [cbn; unfold MAX_WARP_SIZE; lia | discriminate]. }
  split; [exact Hwf|].
  destruct (issue_clear_issue_accumulates (fresh 4) 1 7 100 4 8 200 Hwf)
    as (w1 & w2 & H1 & _ & H2 & _ & Hact).
  exists w1, w2. split; [exact H1|]. split; [exact H2|].
  rewrite !Hact by (unfold MAX_WARP_SIZE; lia). repeat split.
Defined.

(** *** What depends on which part of the per-lane array *)

(** [do_atomic] reads the callbacks only. *)
Lemma do_atomic_from_callbacks (v v' : list per_thread_info) (lane : nat)
    (done : list (nat * call)) :
  callback <$> v = callback <$> v' ->
  do_atomic_from lane v done = do_atomic_from lane v' done.
Proof.
  revert v' lane done. induction v as [|t v IH]; intros [|t' v'] lane done Hcb;
    try discriminate Hcb; [reflexivity|].
  cbn in Hcb. injection Hcb as Ht Hv.
  cbn [do_atomic_from]. rewrite Ht.
  destruct (thread (callback t') =? NULL); [apply IH, Hv|].
  destruct (function (callback t') =? NULL); [reflexivity | apply IH, Hv].
Qed.

(** Rewriting an entry without changing its callback leaves the
    callbacks of the vector as they were. *)
Lemma callbacks_insert_same (v : list per_thread_info) (i : nat)
    (t t' : per_thread_info) :
  v !! i = Some t -> callback t' = callback t ->
  callback <$> (<[i := t']> v) = callback <$> v.
Proof.
  intros Hlook Hcb. rewrite list_fmap_insert.
  apply list_insert_id. rewrite list_lookup_fmap, Hlook. cbn.
  f_equal. symmetry. exact Hcb.
Qed.

Lemma vector_at_fmap (f : per_thread_info -> Z) (v v' : list per_thread_info) (m : Z) :
  f <$> v = f <$> v' -> f <$> vector_at v m = f <$> vector_at v' m.
Proof.
  intros Heq. unfold vector_at. destruct (0 <=? m); [|reflexivity].
  rewrite <- !list_lookup_fmap, Heq. reflexivity.
Qed.

(** [has_callback] reads the mask, the allocation flag and the
    callbacks only. *)
Lemma has_callback_ext (w w' : warp_inst_t) (m : Z) :
  warp_active_mask w' = warp_active_mask w ->
  m_per_scalar_thread_valid w' = m_per_scalar_thread_valid w ->
  callback <$> m_per_scalar_thread w' = callback <$> m_per_scalar_thread w ->
  has_callback w' m = has_callback w m.
Proof.
  intros Hmask Hvalid Hcb. unfold has_callback. rewrite Hmask, Hvalid.
  destruct (bitset_index (warp_active_mask w) m) as [[|]|]; cbn; try reflexivity.
  destruct (m_per_scalar_thread_valid w); cbn; [|reflexivity].
  unfold vector_at. destruct (0 <=? m); [|reflexivity].
  assert (Hlook : callback <$> (m_per_scalar_thread w' !! Z.to_nat m)
                  = callback <$> (m_per_scalar_thread w !! Z.to_nat m))
    by (rewrite <- !list_lookup_fmap, Hcb; reflexivity).
  destruct (m_per_scalar_thread w' !! Z.to_nat m) as [t'|],
           (m_per_scalar_thread w !! Z.to_nat m) as [t|];
    cbn in Hlook; try discriminate Hlook; [|reflexivity].
  injection Hlook as Hsame. cbn. rewrite Hsame. reflexivity.
Qed.

(** *** [clear] and the per-lane state *)

(** X12.  [clear()] keeps the atomic flag, the addresses and the
    callbacks.  So when [do_atomic()] made the calls [trace] on an
    instruction, then after [clear()] the instruction is still atomic,
    [get_addr] and [has_callback] answer as before, [do_atomic()] fails
    its assertion, and after a new [issue] [do_atomic()] makes the same
    calls again. *)
Theorem clear_keeps_callbacks
    (w : warp_inst_t) (trace : list (nat * call)) (mask id cycle : Z) :
  well_formed w -> do_atomic w = Some trace ->
  isatomic (clear w) = true
  /\ do_atomic (clear w) = None
  /\ (forall n, get_addr (clear w) n = get_addr w n
                /\ has_callback (clear w) n = has_callback w n)
  /\ exists w1,
       issue (clear w) mask id cycle = Some w1
       /\ do_atomic w1 = Some trace.
Proof.
  intros Hwf Hrun. unfold do_atomic in Hrun.
  destruct (m_isatomic w) eqn:Hat; [|discriminate Hrun].
  destruct (m_empty w) eqn:Hem; [discriminate Hrun|].
  cbn in Hrun.
  split; [exact Hat|]. split.
  { unfold do_atomic; cbn. rewrite andb_false_r. reflexivity. }
  split; [intros n; split; reflexivity|].
  assert (Hwfc : well_formed (clear w)) by exact Hwf.
  destruct (issue_unfold (clear w) mask id cycle Hwfc) as (bits & _ & _ & Heq).
  eexists. split; [exact Heq|].
  unfold do_atomic; cbn. rewrite Hat. exact Hrun.
Qed.

Lemma clear_keeps_callbacks_witness :
  well_formed sample_atomic
  /\ do_atomic sample_atomic
     = Some [(0%nat, Call 1000 2000 3000); (1%nat, Call 1001 2000 3001)]
  /\ exists w1,
       issue (clear sample_atomic) 8 9 300 = Some w1
       /\ do_atomic w1
          = Some [(0%nat, Call 1000 2000 3000); (1%nat, Call 1001 2000 3001)].
Proof.
  split; [exact WarpFacts.sample_atomic_well_formed|].
  split; [reflexivity|].
  destruct (clear_keeps_callbacks sample_atomic
              [(0%nat, Call 1000 2000 3000); (1%nat, Call 1001 2000 3001)]
              8 9 300 WarpFacts.sample_atomic_well_formed eq_refl)
    as (_ & _ & _ & w1 & Hrun & Hcalls).
  exists w1. split; [exact Hrun | exact Hcalls].
Defined.

(** *** [set_addr] *)

(** X13.  Once the per-lane array is allocated, [set_addr(n, a)] on a
    lane below the width changes the address of lane [n] and nothing
    else that can be observed: the addresses of the other lanes, every
    [has_callback] and [active] answer, the atomic and empty flags and
    the calls of [do_atomic()] are as before. *)
Theorem set_addr_changes_one_address (w : warp_inst_t) (n a : Z) :
  well_formed w -> m_per_scalar_thread_valid w = true ->
  0 <= n < m_warp_size w ->
  exists w1,
    set_addr w n a = Some w1
    /\ get_addr w1 n = Some a
    /\ (forall m, m <> n -> get_addr w1 m = get_addr w m)
    /\ (forall m, has_callback w1 m = has_callback w m)
    /\ (forall m, active w1 m = active w m)
    /\ isatomic w1 = isatomic w /\ empty w1 = empty w
    /\ do_atomic w1 = do_atomic w.
Proof.
  intros Hwf Hvalid Hn.
  destruct (set_addr_unfold w n a Hwf Hn) as (t & Ht & Heq).
  pose proof (allocated_length' w Hwf) as Hlen.
  unfold allocated in Ht, Heq, Hlen. rewrite Hvalid in Ht, Heq, Hlen.
  assert (Hcb : callback <$> (<[Z.to_nat n :=
                  {| callback := callback t; memreqaddr := a;
                     cache_miss := cache_miss t |}]> (m_per_scalar_thread w))
                = callback <$> m_per_scalar_thread w)
    by (apply (callbacks_insert_same _ _ t); [exact Ht | reflexivity]).
  eexists. split; [exact Heq|]. split; [|split; [|split; [|split]]].
  - unfold get_addr; cbn. rewrite WarpFacts.vector_at_store by lia. reflexivity.
  - intros m Hm. unfold get_addr; cbn. rewrite Hvalid.
    unfold vector_at. destruct (Z.leb_spec 0 m) as [Hm0|]; [|reflexivity].
    rewrite list_lookup_insert_ne by lia. reflexivity.
  - intros m. apply has_callback_ext; cbn; [reflexivity | congruence | exact Hcb].
  - intros m. reflexivity.
  - split; [reflexivity|]. split; [reflexivity|].
    unfold do_atomic; cbn.
    rewrite (do_atomic_from_callbacks _ (m_per_scalar_thread w)) by exact Hcb.
    reflexivity.
Qed.

Lemma set_addr_changes_one_address_witness :
  well_formed sample_atomic
  /\ get_addr sample_atomic 2 = Some 4104
  /\ exists w1,
       set_addr sample_atomic 0 8192 = Some w1
       /\ get_addr w1 0 = Some 8192
       /\ get_addr w1 2 = Some 4104
       /\ has_callback w1 0 = Some true
       /\ do_atomic w1 = do_atomic sample_atomic.
Proof.
  split; [exact WarpFacts.sample_atomic_well_formed|]. split; [reflexivity|].
  destruct (set_addr_changes_one_address sample_atomic 0 8192
              WarpFacts.sample_atomic_well_formed eq_refl)
    as (w1 & Hset & Hget & Hother & Hcb & _ & _ & _ & Hdo); [cbn; lia|].
  exists w1. split; [exact Hset|]. split; [exact Hget|].
  split; [rewrite Hother by lia; reflexivity|].
  split; [rewrite Hcb; reflexivity | exact Hdo].
Defined.

(** X14.  The first [set_addr(n, a)] on an instruction that never had
    its per-lane array allocated gives every other lane below the width
    the address 0 and no lane a callback: [has_callback] answers false
    for every lane of the bitset, the instruction is not atomic and
    [do_atomic()] fails its assertion. *)
Theorem set_addr_first_allocation (w : warp_inst_t) (n a : Z) :
  built w -> m_per_scalar_thread_valid w = false ->
  0 <= n < m_warp_size w ->
  exists w1,
    set_addr w n a = Some w1
    /\ get_addr w1 n = Some a
    /\ (forall m, 0 <= m < m_warp_size w -> m <> n -> get_addr w1 m = Some 0)
    /\ (forall m, 0 <= m < MAX_WARP_SIZE -> has_callback w1 m = Some false)
    /\ isatomic w1 = false
    /\ do_atomic w1 = None.
Proof.
  intros Hb Hvalid Hn.
  destruct (built_inv w Hb) as (Hwf & Hnil & Hat & Hhigh).
  destruct (set_addr_unfold w n a Hwf Hn) as (t & Ht & Heq).
  assert (Halloc : allocated w
                   = replicate (Z.to_nat (m_warp_size w)) per_thread_default).
  { unfold allocated. rewrite Hvalid, (Hnil Hvalid). unfold vector_resize.
    rewrite take_nil. cbn [length app]. rewrite Nat.sub_0_r. reflexivity. }
  rewrite Halloc in Ht, Heq.
  apply lookup_replicate_1 in Ht as [-> _].
  assert (Hnot : m_isatomic w = false).
  { destruct (m_isatomic w) eqn:E; [|reflexivity].
    specialize (Hat E). congruence. }
  eexists. split; [exact Heq|]. split; [|split; [|split; [|split]]].
  - unfold get_addr; cbn.
    rewrite WarpFacts.vector_at_store by (rewrite length_replicate; lia).
    reflexivity.
  - intros m Hm Hne. unfold get_addr, vector_at; cbn.
    destruct (Z.leb_spec 0 m); [|lia].
    rewrite list_lookup_insert_ne by lia.
    rewrite lookup_replicate_2 by lia. reflexivity.
  - intros m Hm. unfold has_callback, bitset_index; cbn.
    rewrite bitset_in_range_true by exact Hm. cbn.
    destruct (Z.testbit (warp_active_mask w) m) eqn:Hbit; [|reflexivity].
    cbn. unfold vector_at. destruct (Z.leb_spec 0 m); [|lia].
    assert (Hlt : m < m_warp_size w).
    { destruct (Z.lt_ge_cases m (m_warp_size w)) as [|Hge]; [assumption|].
      rewrite (Hhigh m Hge) in Hbit. discriminate Hbit. }
    destruct (Z.eq_dec m n) as [->|Hne].
    + rewrite list_lookup_insert_eq by (rewrite length_replicate; lia).
      reflexivity.
    + rewrite list_lookup_insert_ne by lia.
      rewrite lookup_replicate_2 by lia. reflexivity.
  - exact Hnot.
  - unfold do_atomic; cbn. rewrite Hnot. reflexivity.
Qed.

Lemma set_addr_first_allocation_witness :
  built (fresh 4)
  /\ exists w1,
       set_addr (fresh 4) 1 4096 = Some w1
       /\ get_addr w1 1 = Some 4096
       /\ get_addr w1 3 = Some 0
       /\ has_callback w1 1 = Some false.
Proof.
  assert (Hb : built (fresh 4)) by (apply fresh_built; unfold MAX_WARP_SIZE; lia).
  split; [exact Hb|].
  destruct (set_addr_first_allocation (fresh 4) 1 4096 Hb eq_refl)
    as (w1 & Hset & Hget & Hother & Hcb & _); [cbn; lia|].
  exists w1. split; [exact Hset|]. split; [exact Hget|].
  split; [apply Hother; cbn; lia | apply Hcb; unfold MAX_WARP_SIZE; lia].
Defined.

(** X15.  The last address written wins: [set_addr(n, a)] followed by
    [set_addr(n, b)] leaves the instruction as [set_addr(n, b)] alone
    does, and [get_addr(n)] then returns [b]. *)
Theorem set_addr_overwrites (w : warp_inst_t) (n a b : Z) :
  well_formed w -> 0 <= n < m_warp_size w ->
  exists w1 w2,
    set_addr w n a = Some w1
    /\ set_addr w1 n b = Some w2
    /\ set_addr w n b = Some w2
    /\ get_addr w2 n = Some b.
Proof.
  intros Hwf Hn.
  destruct (set_addr_unfold w n a Hwf Hn) as (t & Ht & Heqa).
  destruct (set_addr_unfold w n b Hwf Hn) as (t' & Ht' & Heqb).
  assert (t' = t) by congruence. subst t'.
  pose proof (allocated_length' w Hwf) as Hlen.
  remember (allocated w) as v eqn:Hv.
  eexists. eexists. split; [exact Heqa|].
  assert (Hwf1 : well_formed
    {| base := base w; m_empty := m_empty w; issue_cycle := issue_cycle w;
       m_isatomic := m_isatomic w; m_warp_id := m_warp_id w;
       m_warp_size := m_warp_size w; warp_active_mask := warp_active_mask w;
       m_per_scalar_thread_valid := true;
       m_per_scalar_thread :=
         <[Z.to_nat n := {| callback := callback t; memreqaddr := a;
                            cache_miss := cache_miss t |}]> v |})
    by (apply (WarpFacts.set_addr_well_formed w n a); assumption).
  destruct (set_addr_unfold _ n b Hwf1 Hn) as (t1 & Ht1 & Heq1).
  unfold allocated in Ht1, Heq1; cbn in Ht1, Heq1.
  rewrite list_lookup_insert_eq in Ht1 by lia. injection Ht1 as <-.
  cbn in Heq1. rewrite list_insert_insert_eq in Heq1.
  split; [exact Heq1|]. split; [exact Heqb|].
  unfold get_addr; cbn. rewrite WarpFacts.vector_at_store by lia. reflexivity.
Qed.

Lemma set_addr_overwrites_witness :
  well_formed (fresh 4)
  /\ exists w1 w2,
       set_addr (fresh 4) 2 4096 = Some w1
       /\ set_addr w1 2 8192 = Some w2
       /\ get_addr w2 2 = Some 8192.
Proof.
  assert (Hwf : well_formed (fresh 4)).
  { split; [cbn; unfold MAX_WARP_SIZE; lia | discriminate]. }
  split; [exact Hwf|].
  destruct (set_addr_overwrites (fresh 4) 2 4096 8192 Hwf)
    as (w1 & w2 & H1 & H2 & _ & Hget); [cbn; lia|].
  exists w1, w2. split; [exact H1|]. split; [exact H2 | exact Hget].
Defined.

(** *** [add_callback] *)

(** X16.  After [add_callback(n, function, instruction, thread)] on a
    lane below the width, [has_callback(n)] answers true exactly when
    lane [n] is active and [function] is not null.  The mask and the
    empty flag are untouched; when the per-lane array was already
    allocated, every address and the [has_callback] answer of every
    other lane are as before. *)
Theorem add_callback_then_has_callback (w : warp_inst_t) (n fn inst thr : Z) :
  well_formed w -> 0 <= n < m_warp_size w ->
  exists w1,
    add_callback w n fn inst thr = Some w1
    /\ has_callback w1 n
       = Some (Z.testbit (warp_active_mask w) n && negb (fn =? NULL))
    /\ (forall m, active w1 m = active w m)
    /\ empty w1 = empty w
    /\ (m_per_scalar_thread_valid w = true ->
        (forall m, get_addr w1 m = get_addr w m)
        /\ (forall m, m <> n -> has_callback w1 m = has_callback w m)).
Proof.
  intros Hwf Hn.
  destruct (add_callback_unfold w n fn inst thr Hwf Hn) as (t & Ht & Heq).
  pose proof (allocated_length' w Hwf) as Hlen.
  remember (allocated w) as v eqn:Hv.
  destruct Hwf as [Hsize _].
  eexists. split; [exact Heq|]. split; [|split; [reflexivity|split; [reflexivity|]]].
  - unfold has_callback, bitset_index; cbn.
    rewrite bitset_in_range_true by lia. cbn.
    destruct (Z.testbit (warp_active_mask w) n); [|reflexivity]. cbn.
    rewrite WarpFacts.vector_at_store by lia. reflexivity.
  - intros Hvalid. unfold allocated in Hv. rewrite Hvalid in Hv. subst v.
    split.
    + intros m. unfold get_addr; cbn. rewrite Hvalid.
      unfold vector_at. destruct (Z.leb_spec 0 m) as [Hm0|]; [|reflexivity].
      destruct (Z.eq_dec m n) as [->|Hne].
      * rewrite list_lookup_insert_eq by lia. rewrite Ht. reflexivity.
      * rewrite list_lookup_insert_ne by lia. reflexivity.
    + intros m Hne. unfold has_callback; cbn. rewrite Hvalid.
      destruct (bitset_index (warp_active_mask w) m) as [[|]|]; cbn; try reflexivity.
      unfold vector_at. destruct (Z.leb_spec 0 m) as [Hm0|]; [|reflexivity].
      rewrite list_lookup_insert_ne by lia. reflexivity.
Qed.

Lemma add_callback_then_has_callback_witness :
  well_formed sample_issued
  /\ exists w1 w2,
       add_callback sample_issued 2 1000 2000 3000 = Some w1
       /\ has_callback w1 2 = Some true
       /\ add_callback sample_issued 1 1000 2000 3000 = Some w2
       /\ has_callback w2 1 = Some false.
Proof.
  split; [exact WarpFacts.sample_issued_well_formed|].
  destruct (add_callback_then_has_callback sample_issued 2 1000 2000 3000
              WarpFacts.sample_issued_well_formed)
    as (w1 & H1 & Hcb1 & _); [cbn; lia|].
  destruct (add_callback_then_has_callback sample_issued 1 1000 2000 3000
              WarpFacts.sample_issued_well_formed)
    as (w2 & H2 & Hcb2 & _); [cbn; lia|].
  exists w1, w2. split; [exact H1|]. split; [exact Hcb1|].
  split; [exact H2 | exact Hcb2].
Defined.

(** X17.  Once the per-lane array is allocated, [set_addr(n, a)] and
    [add_callback(m, ..)] on lanes below the width can be made in either
    order, on the same lane or on different ones: both orders return,
    and with the same instruction. *)
Theorem set_addr_add_callback_commute
    (w : warp_inst_t) (n a m fn inst thr : Z) :
  well_formed w -> m_per_scalar_thread_valid w = true ->
  0 <= n < m_warp_size w -> 0 <= m < m_warp_size w ->
  exists w2,
    (w1 ← set_addr w n a; add_callback w1 m fn inst thr) = Some w2
    /\ (w1 ← add_callback w m fn inst thr; set_addr w1 n a) = Some w2.
Proof.
  intros Hwf Hvalid Hn Hm.
  pose proof (allocated_length' w Hwf) as Hlen.
  destruct (set_addr_unfold w n a Hwf Hn) as (tn & Htn & Hs).
  destruct (add_callback_unfold w m fn inst thr Hwf Hm) as (tm & Htm & Ha).
  remember (allocated w) as v eqn:Hv.
  rewrite Hs, Ha. cbn [mbind option_bind].
  match goal with |- context [add_callback ?s _ _ _ _] =>
    assert (Hwf1 : well_formed s)
      by (apply (WarpFacts.set_addr_well_formed w n a); assumption);
    destruct (add_callback_unfold s m fn inst thr Hwf1 Hm) as (t1 & Ht1 & Ha1)
  end.
  match goal with |- context [set_addr ?s _ _] =>
    assert (Hwf2 : well_formed s)
      by (apply (WarpFacts.add_callback_well_formed w m fn inst thr); assumption);
    destruct (set_addr_unfold s n a Hwf2 Hn) as (t2 & Ht2 & Hs2)
  end.
  unfold allocated in Ht1, Ha1, Ht2, Hs2.
  cbn in Ht1, Ha1, Ht2, Hs2.
  rewrite Ha1, Hs2, Hvalid. eexists. split; [reflexivity|].
  do 2 f_equal.
  destruct (Z.eq_dec m n) as [->|Hne].
  - rewrite list_lookup_insert_eq in Ht1, Ht2 by lia.
    injection Ht1 as <-. injection Ht2 as <-. cbn.
    assert (tm = tn) by congruence. subst tm.
    rewrite !list_insert_insert_eq. reflexivity.
  - rewrite list_lookup_insert_ne in Ht1, Ht2 by lia.
    assert (t1 = tm) by congruence. assert (t2 = tn) by congruence.
    subst t1 t2. apply list_insert_insert_ne. lia.
Qed.

Lemma set_addr_add_callback_commute_witness :
  well_formed sample_atomic
  /\ exists w2,
       (w1 ← set_addr sample_atomic 2 64; add_callback w1 2 1002 2000 3002)
       = Some w2
       /\ (w1 ← add_callback sample_atomic 2 1002 2000 3002; set_addr w1 2 64)
          = Some w2
       /\ get_addr w2 2 = Some 64 /\ has_callback w2 2 = Some true.
Proof.
  split; [exact WarpFacts.sample_atomic_well_formed|].
  destruct (set_addr_add_callback_commute sample_atomic 2 64 2 1002 2000 3002
              WarpFacts.sample_atomic_well_formed eq_refl)
    as (w2 & H1 & H2); [cbn; lia | cbn; lia |].
  exists w2. split; [exact H1|]. split; [exact H2|].
  cbv in H1. injection H1 as <-. split; reflexivity.
Defined.

(** *** [do_atomic] *)

Lemma calls_from_ordered (v : list per_thread_info) (lane : nat) :
  (forall i e, calls_from lane v [] !! i = Some e ->
     (lane <= fst e < lane + length v)%nat)
  /\ (forall i j e1 e2,
        calls_from lane v [] !! i = Some e1 ->
        calls_from lane v [] !! j = Some e2 ->
        (i < j)%nat -> (fst e1 < fst e2)%nat)
  /\ (length (calls_from lane v []) <= length v)%nat.
Proof.
  revert lane. induction v as [|t v IH]; intros lane.
  - cbn. repeat split; try lia; intros; discriminate.
  - destruct (IH (S lane)) as (Hbound & Hsorted & Hlength).
    rewrite WarpFacts.calls_from_cons. unfold lane_calls.
    destruct (thread (callback t) =? NULL); cbn [map app length].
    + split; [|split; [exact Hsorted | lia]].
      intros i e He. specialize (Hbound i e He). lia.
    + split; [|split; [|lia]].
      * intros [|i] e He; cbn in He.
        -- injection He as <-. cbn. lia.
        -- specialize (Hbound i e He). lia.
      * intros i [|j] e1 e2 H1 H2 Hij; [lia|]. cbn in H2.
        destruct i as [|i]; cbn in H1.
        -- injection H1 as <-. cbn. specialize (Hbound j e2 H2). lia.
        -- apply (Hsorted i j); [assumption | assumption | lia].
Qed.

(** X18.  On an atomic, non-empty instruction in which every entry with
    a thread has a function, [do_atomic()] returns, having made its
    calls in ascending lane order, at most one per entry of the per-lane
    array, and only for lanes of that array. *)
Theorem do_atomic_calls_in_lane_order (w : warp_inst_t) :
  isatomic w = true -> empty w = false ->
  callable (m_per_scalar_thread w) ->
  exists trace,
    do_atomic w = Some trace
    /\ (forall i j e1 e2,
          trace !! i = Some e1 -> trace !! j = Some e2 ->
          (i < j)%nat -> (fst e1 < fst e2)%nat)
    /\ (forall i e, trace !! i = Some e ->
          (fst e < length (m_per_scalar_thread w))%nat)
    /\ (length trace <= length (m_per_scalar_thread w))%nat.
Proof.
  unfold isatomic, empty, do_atomic. intros -> -> Hok. cbn.
  rewrite (WarpFacts.do_atomic_from_callable _ 0 Hok).
  destruct (calls_from_ordered (m_per_scalar_thread w) 0)
    as (Hbound & Hsorted & Hlength).
  eexists. split; [reflexivity|]. split; [exact Hsorted|].
  split; [|exact Hlength].
  intros i e He. specialize (Hbound i e He). lia.
Qed.

Lemma do_atomic_calls_in_lane_order_witness :
  isatomic sample_atomic = true /\ empty sample_atomic = false
  /\ exists trace,
       do_atomic sample_atomic = Some trace
       /\ map fst trace = [0%nat; 1%nat]
       /\ (length trace <= 4)%nat.
Proof.
  do 2 (split; [reflexivity|]).
  destruct (do_atomic_calls_in_lane_order sample_atomic eq_refl eq_refl
              WarpFacts.sample_atomic_callable)
    as (trace & Hrun & _ & _ & Hlen).
  exists trace. split; [exact Hrun|]. split; [|exact Hlen].
  cbv in Hrun. injection Hrun as <-. reflexivity.
Defined.

(** *** [has_callback] and [get_addr] *)

(** X19.  Whenever [has_callback(n)] answers true, lane [n] is active
    and [get_addr(n)] returns an address instead of failing its
    assertion. *)
Theorem has_callback_true_allows_get_addr (w : warp_inst_t) (n : Z) :
  has_callback w n = Some true ->
  active w n = Some true
  /\ m_per_scalar_thread_valid w = true
  /\ exists t, vector_at (m_per_scalar_thread w) n = Some t
               /\ function (callback t) <> NULL
               /\ get_addr w n = Some (memreqaddr t).
Proof.
  unfold has_callback, active, bitset_index, bitset_test, get_addr.
  destruct (bitset_in_range n); [|discriminate]. cbn.
  destruct (Z.testbit (warp_active_mask w) n); [|discriminate]. cbn.
  destruct (m_per_scalar_thread_valid w); [|discriminate]. cbn.
  destruct (vector_at (m_per_scalar_thread w) n) as [t|]; [|discriminate]. cbn.
  intros [= Hfn]. split; [reflexivity|]. split; [reflexivity|].
  exists t. split; [reflexivity|]. split; [|reflexivity].
  apply negb_true_iff, Z.eqb_neq in Hfn. exact Hfn.
Qed.

Lemma has_callback_true_allows_get_addr_witness :
  has_callback sample_atomic 0 = Some true
  /\ active sample_atomic 0 = Some true
  /\ get_addr sample_atomic 0 = Some 4096.
Proof.
  destruct (has_callback_true_allows_get_addr sample_atomic 0 eq_refl)
    as (Hact & _ & t & Ht & _ & Hget).
  split; [reflexivity|]. split; [exact Hact|].
  rewrite Hget. cbv in Ht. injection Ht as <-. reflexivity.
Defined.

(** *** [print_insn] *)

Lemma print_lanes_chars (k : nat) (bits : bitset) :
  Z.of_nat k <= MAX_WARP_SIZE ->
  exists chars,
    print_lanes k bits = Some (map Char chars)
    /\ length chars = k
    /\ forall i : nat, (i < k)%nat ->
         chars !! (k - 1 - i)%nat
         = Some (if Z.testbit bits (Z.of_nat i) then "1"%char else "0"%char).
Proof.
  induction k as [|k IH]; intros Hk.
  - exists []. split; [reflexivity|]. split; [reflexivity|]. intros i Hi. lia.
  - destruct IH as (chars & Hrun & Hlen & Hchars); [lia|].
    cbn [print_lanes]. unfold bitset_index.
    rewrite bitset_in_range_true by lia. cbn. rewrite Hrun. cbn.
    exists ((if Z.testbit bits (Z.of_nat k) then "1"%char else "0"%char) :: chars).
    split; [reflexivity|]. split; [cbn; lia|].
    intros i Hi. destruct (Nat.eq_dec i k) as [->|Hne].
    + match goal with |- _ !! ?idx = _ => replace idx with 0%nat by lia end.
      reflexivity.
    + match goal with |- _ !! ?idx = _ =>
        replace idx with (S (k - 1 - i)) by lia end.
      cbn. apply Hchars. lia.
Qed.

(** X20.  [warp_inst_t::print_insn] writes what [inst_t::print_insn]
    writes for the instruction, then one character per lane below the
    width, the highest lane first: '1' for an active lane, '0' for an
    inactive one. *)
Theorem print_insn_writes_mask (w : warp_inst_t) :
  well_formed w ->
  exists chars,
    print_insn w = Some (Inst.print_insn (base w) ++ map Char chars)
    /\ Z.of_nat (length chars) = m_warp_size w
    /\ forall i, 0 <= i < m_warp_size w ->
         chars !! Z.to_nat (m_warp_size w - 1 - i)
         = Some (if Z.testbit (warp_active_mask w) i then "1"%char else "0"%char).
Proof.
  intros [Hsize _].
  destruct (print_lanes_chars (Z.to_nat (m_warp_size w)) (warp_active_mask w))
    as (chars & Hrun & Hlen & Hchars); [lia|].
  exists chars. unfold print_insn. rewrite Hrun. cbn.
  split; [reflexivity|]. split; [lia|].
  intros i Hi. specialize (Hchars (Z.to_nat i) ltac:(lia)).
  rewrite Z2Nat.id in Hchars by lia. rewrite <- Hchars. f_equal. lia.
Qed.

Lemma print_insn_writes_mask_witness :
  well_formed sample_issued
  /\ print_insn sample_issued
     = Some [Header 4294967295; Char "0"; Char "1"; Char "0"; Char "1"]
  /\ exists chars,
       print_insn sample_issued
       = Some (Inst.print_insn (base sample_issued) ++ map Char chars)
       /\ chars !! 3%nat = Some "1"%char
       /\ chars !! 2%nat = Some "0"%char.
Proof.
  split; [exact WarpFacts.sample_issued_well_formed|].
  split; [reflexivity|].
  destruct (print_insn_writes_mask sample_issued
              WarpFacts.sample_issued_well_formed) as (chars & Hrun & _ & Hchars).
  exists chars. split; [exact Hrun|].
  split; [apply (Hchars 0) | apply (Hchars 1)]; cbn; lia.
Defined.

End WarpLaws.
